(** * bb_network_decomposition.regression

    A shallow embedding of [bb_network_decomposition/regression.py]: the
    output transform, the three likelihood evaluators, the model fitter and
    the two orchestrators, with the properties the specification states
    about them.

    Conventions.
    - Tensors hold scalars of an arbitrary type [T] with the arithmetic of
      the class [Scalar]; nothing is assumed about that arithmetic, so the
      structural results hold for floating point as well as for exact
      numbers.  The numerical results on standardization are stated on the
      instance of the real numbers.
    - A Python exception is a value [Raise e] of the type [result].
    - What the code takes from torch and scikit-learn (distributions,
      random initialisation, the L-BFGS optimizer, the metrics) is the
      interface [Torch].
    - dtype and device conversions ([astype], [to], [cpu], [detach],
      [numpy], [from_numpy]) are the identity on this model. *)

From Stdlib Require Import Reals Lra Lia ZArith QArith Qreals.
From stdpp Require Import gmap strings list.

(** ** Exceptions *)

Inductive exn :=
| AssertionError | IndexError | KeyError | RuntimeError | TypeError | ValueError.

Inductive result (A : Type) :=
| Ok (a : A)
| Raise (e : exn).
Arguments Ok {A} a.
Arguments Raise {A} e.

#[global] Instance result_ret : MRet result := @Ok.
#[global] Instance result_bind : MBind result :=
  fun A B f r => match r with Ok a => f a | Raise e => Raise e end.

(** [for i in idx: a = body(a, i)], stopping at the first exception. *)
Fixpoint for_range {A} (idx : list nat) (body : A → nat → result A) (a : A)
  : result A :=
  match idx with
  | [] => Ok a
  | i :: idx' => a' ← body a i; for_range idx' body a'
  end.

(** [l[i]] for a non-negative index. *)
Definition getitem {A} (l : list A) (i : nat) : result A :=
  match l !! i with Some x => Ok x | None => Raise IndexError end.

(** [l[-1]]. *)
Definition getitem_last {A} (l : list A) : result A :=
  match last l with Some x => Ok x | None => Raise IndexError end.

(** ** Scalars *)

Class Scalar (T : Type) := {
  szero : T;
  sone : T;
  sadd : T → T → T;
  ssub : T → T → T;
  smul : T → T → T;
  sdiv : T → T → T;
  sneg : T → T;
  ssqrt : T → T;
  snat : nat → T;          (* conversion of a count *)
  slit : Q → T;            (* a decimal literal of the source *)
  stanh : T → T;
  ssigmoid : T → T;
  ssoftplus : T → T;
}.

(** ** Tensors

    A 1-D tensor is a list; a 2-D tensor is its rows together with the size
    of its last dimension, which is the shape also when there is no row. *)

Record matrix (T : Type) := Matrix { ncols : nat; rows : list (list T) }.
Arguments Matrix {T} ncols rows.
Arguments ncols {T} m.
Arguments rows {T} m.

Definition nrows {T} (M : matrix T) : nat := length (rows M).

Definition wf_matrix {T} (M : matrix T) : Prop :=
  Forall (fun r => length r = ncols M) (rows M).

Inductive tensor (T : Type) :=
| Vec (v : list T)
| Mat (m : matrix T).
Arguments Vec {T} v.
Arguments Mat {T} m.

Section Tensors.
Context {T : Type} `{Scalar T}.

Definition vsum (v : list T) : T := fold_left sadd v szero.

Definition vmean (v : list T) : T := sdiv (vsum v) (snat (length v)).

Definition dot (u v : list T) : T := vsum (zip_with smul u v).

Definition column (j : nat) (M : matrix T) : list T :=
  map (fun r => nth j r szero) (rows M).

Definition mmap (f : T → T) (M : matrix T) : matrix T :=
  Matrix (ncols M) (map (map f) (rows M)).

(** [torch.mm]: the inner dimensions must agree. *)
Definition mm (A B : matrix T) : result (matrix T) :=
  if decide (ncols A = nrows B)
  then Ok (Matrix (ncols B)
             (map (fun r => map (fun j => dot r (column j B)) (seq 0 (ncols B)))
                  (rows A)))
  else Raise RuntimeError.

(** Broadcasting of a binary operation over a tensor of shape (N, K) and one
    of shape (L,): the last dimensions must be equal, or one of them 1. *)
Definition broadcast_mv (f : T → T → T) (M : matrix T) (b : list T)
  : result (matrix T) :=
  if decide (length b = ncols M)
  then Ok (Matrix (ncols M) (map (fun r => zip_with f r b) (rows M)))
  else if decide (length b = 1)
  then Ok (Matrix (ncols M)
             (map (fun r => map (fun x => f x (nth 0 b szero)) r) (rows M)))
  else if decide (ncols M = 1)
  then Ok (Matrix (length b)
             (map (fun r => map (fun y => f (nth 0 r szero) y) b) (rows M)))
  else Raise RuntimeError.

(** [M[:, 0]]. *)
Definition first_column (M : matrix T) : result (list T) :=
  if decide (ncols M = 0) then Raise IndexError else Ok (column 0 M).

Definition tsum (t : tensor T) : T :=
  match t with
  | Vec v => vsum v
  | Mat m => vsum (concat (rows m))
  end.

Definition numel (t : tensor T) : nat :=
  match t with
  | Vec v => length v
  | Mat m => nrows m * ncols m
  end.

Definition tmean (t : tensor T) : T := sdiv (tsum t) (snat (numel t)).

(** ** The output transform *)

(** One turn of the loop of [get_output]. *)
Definition layer (intercepts : list (list T)) (coeffs : list (matrix T))
  (X : matrix T) (i : nat) : result (matrix T) :=
  W ← getitem coeffs i;
  XW ← mm X W;
  b ← getitem intercepts i;
  X' ← broadcast_mv sadd XW b;
  if decide (Z.of_nat i < Z.of_nat (length coeffs) - 1)%Z
  then Ok (mmap stanh X')
  else Ok X'.

Definition get_output (X Y : matrix T) (intercepts : list (list T))
  (coeffs : list (matrix T)) : result (matrix T) :=
  X ← for_range (seq 0 (length coeffs)) (layer intercepts coeffs) X;
  if decide (length coeffs = 0)
  then
    b ← getitem_last intercepts;
    broadcast_mv (fun y0 b => sadd b y0) (mmap (fun y => smul y szero) Y) b
  else Ok X.

(** The output transform in the words of the specification: each affine
    layer in sequence, a hyperbolic tangent after every layer but the
    last. *)
Fixpoint affine_layers (X : matrix T) (layers : list (matrix T * list T))
  : result (matrix T) :=
  match layers with
  | [] => Ok X
  | (W, b) :: rest =>
      XW ← mm X W;
      X' ← broadcast_mv sadd XW b;
      match rest with
      | [] => Ok X'
      | _ :: _ => affine_layers (mmap stanh X') rest
      end
  end.

End Tensors.

(** ** Model parameters *)

(** The parameters the fitter allocates; the optimizer updates them in
    place, so the closure, the optimizer and the returned evaluator all see
    this one store. *)
Record params (T : Type) := Params {
  coeffs : list (matrix T);
  intercepts : list (list T);
  scale : option (list T);
}.
Arguments Params {T} coeffs intercepts scale.
Arguments coeffs {T} p.
Arguments intercepts {T} p.
Arguments scale {T} p.

Definition mshape {T} (M : matrix T) : nat * nat := (nrows M, ncols M).

Definition params_shape {T} (p : params T)
  : list (nat * nat) * list nat * option nat :=
  (map mshape (coeffs p), map length (intercepts p), length <$> scale p).

(** ** What the code takes from torch and scikit-learn *)

Class Torch (T : Type) := {
  (* torch.distributions: construction validates, [log_prob] evaluates *)
  binomial : Type;
  binomial_new : option (list T) → list T → result binomial;
  binomial_log_prob : binomial → list T → result (list T);
  normal : Type;
  normal_new : matrix T → list T → result normal;
  normal_log_prob : normal → matrix T → result (matrix T);
  multinomial : Type;
  multinomial_new : matrix T → result multinomial;
  multinomial_log_prob : multinomial → matrix T → result (list T);
  (* torch.nn.functional.softmax over one row *)
  softmax : list T → list T;
  (* the random generator, torch.randn and torch.nn.init.orthogonal_ *)
  generator : Type;
  randn : nat * nat → generator → matrix T * generator;
  orthogonal_ : matrix T → generator → matrix T * generator;
  (* torch.optim.LBFGS: its history, and one call of [step] *)
  lbfgs : Type;
  lbfgs_new : lbfgs;
  lbfgs_step :
    T → (params T → result T) → params T → lbfgs → result (params T * lbfgs);
  (* sklearn.metrics *)
  mean_squared_error : matrix T → tensor T → result T;
  r2_score : matrix T → tensor T → result T;
}.

(** What is assumed of the library: the random initialisers return the shape
    they are asked for, and the optimizer updates the parameters in place,
    so it keeps their number and their shapes. *)
Class TorchLaws (T : Type) `{Torch T} : Prop := {
  randn_shape : ∀ n k g,
    mshape (randn (n, k) g).1 = (n, k) ∧ wf_matrix (randn (n, k) g).1;
  orthogonal_shape : ∀ M g,
    wf_matrix M →
    mshape (orthogonal_ M g).1 = mshape M ∧ wf_matrix (orthogonal_ M g).1;
  lbfgs_step_shape : ∀ lr f p h p' h',
    lbfgs_step lr f p h = Ok (p', h') → params_shape p' = params_shape p;
}.

(** ** The evaluators *)

Inductive evaluation_fn := EvaluateBinomial | EvaluateNormal | EvaluateMultinomial.

#[global] Instance evaluation_fn_eq_dec : EqDecision evaluation_fn.
Proof. solve_decision. Defined.

Section Evaluators.
Context {T : Type} `{Scalar T} `{Torch T}.

Definition evaluate_binomial (X Y : matrix T) (total_counts : option (list T))
  (scale : option (list T)) (intercepts : list (list T))
  (coeffs : list (matrix T)) : result (tensor T * tensor T) :=
  logits ← get_output X Y intercepts coeffs;
  if decide (ncols logits = 1)
  then
    logits ← first_column logits;
    let probs := map ssigmoid logits in
    d ← binomial_new total_counts logits;
    y ← first_column Y;
    log_probs ← binomial_log_prob d y;
    Ok (Vec log_probs, Vec probs)
  else Raise AssertionError.

Definition evaluate_normal_eps (eps : Q) (X Y : matrix T)
  (total_counts : option (list T)) (scale : option (list T))
  (intercepts : list (list T)) (coeffs : list (matrix T))
  : result (tensor T * tensor T) :=
  means ← get_output X Y intercepts coeffs;
  s ← match scale with Some s => Ok s | None => Raise TypeError end;
  d ← normal_new means (map (fun x => sadd (ssoftplus x) (slit eps)) s);
  log_probs ← normal_log_prob d Y;
  Ok (Mat log_probs, Mat means).

(** [eps=1e-3] *)
Definition evaluate_normal := evaluate_normal_eps (1 # 1000).

Definition evaluate_multinomial (X Y : matrix T) (total_counts : option (list T))
  (scale : option (list T)) (intercepts : list (list T))
  (coeffs : list (matrix T)) : result (tensor T * tensor T) :=
  logits ← get_output X Y intercepts coeffs;
  let probs := Matrix (ncols logits) (map softmax (rows logits)) in
  d ← multinomial_new logits;
  log_probs ← multinomial_log_prob d Y;
  Ok (Vec log_probs, Mat probs).

(** Calling the function an [evaluation_fn] names. *)
Definition evaluate (fn : evaluation_fn) :=
  match fn with
  | EvaluateBinomial => evaluate_binomial
  | EvaluateNormal => evaluate_normal
  | EvaluateMultinomial => evaluate_multinomial
  end.

(** [functools.partial(evaluation_fn, scale=, coeffs=, intercepts=)] *)
Record partial := Partial { partial_fn : evaluation_fn; partial_params : params T }.

Definition call (f : partial) (X Y : matrix T) (total_counts : option (list T))
  : result (tensor T * tensor T) :=
  evaluate (partial_fn f) X Y total_counts (scale (partial_params f))
    (intercepts (partial_params f)) (coeffs (partial_params f)).

End Evaluators.

(** ** The model fitter *)

Section Fitter.
Context {T : Type} `{Scalar T} `{Torch T}.

(** One call [optimizer.step(closure)] as the optimizer sees it. *)
Record step_call := StepCall {
  call_lr : T;
  call_closure : params T → result T;
  call_params : params T;
}.

(** What a fit reads and writes outside its own variables: the random
    generator, and the calls of [optimizer.step] made so far. *)
Record world := World {
  rng : generator;
  steps : list step_call;
}.

(** Computations that may raise and that change the world. *)
Definition M (A : Type) : Type := world → result A * world.

#[global] Instance M_ret : MRet M := fun A a w => (Ok a, w).
#[global] Instance M_bind : MBind M :=
  fun A B f m w =>
    match m w with
    | (Ok a, w') => f a w'
    | (Raise e, w') => (Raise e, w')
    end.

Definition raise {A} (e : exn) : M A := fun w => (Raise e, w).

Definition lift {A} (r : result A) : M A := fun w => (r, w).

Definition with_rng {A} (f : generator → A * generator) : M A :=
  fun w => let (a, g) := f (rng w) in (Ok a, World g (steps w)).

(** [for i in range(n): a = body(a)] *)
Fixpoint repeat_M {A} (n : nat) (body : A → M A) (a : A) : M A :=
  match n with
  | O => mret a
  | S n' => a' ← body a; repeat_M n' body a'
  end.

Definition _get_weight (shape : nat * nat) : M (matrix T) :=
  m ← with_rng (randn shape);
  with_rng (orthogonal_ m).

Definition _get_intercept (shape : nat) : list T := replicate shape szero.

(** Lines 84 to 98: [coeffs] and [intercepts]. *)
Definition allocate (X Y : matrix T) (null nonlinear : bool) (hidden_size : nat)
  : M (list (list T) * list (matrix T)) :=
  let intercepts := [] in
  let coeffs := [] in
  '(intercepts, coeffs) ←
    (if negb null
     then
       if nonlinear
       then
         let intercepts := intercepts ++ [_get_intercept hidden_size] in
         w1 ← _get_weight (ncols X, hidden_size);
         w2 ← _get_weight (hidden_size, ncols Y);
         mret (intercepts, coeffs ++ [w1; w2])
       else
         w ← _get_weight (ncols X, ncols Y);
         mret (intercepts, coeffs ++ [w])
     else mret (intercepts, coeffs));
  mret (intercepts ++ [_get_intercept (ncols Y)], coeffs).

(** The closure of the fit: the total negative log-likelihood at the
    current value of the parameters. *)
Definition closure (X Y : matrix T) (total_counts : option (list T))
  (fn : evaluation_fn) (p : params T) : result T :=
  '(log_probs, _) ← evaluate fn X Y total_counts (scale p) (intercepts p) (coeffs p);
  Ok (sneg (tsum log_probs)).

(** [optimizer.step(closure)] *)
Definition optimizer_step (lr : T) (f : params T → result T)
  (st : params T * lbfgs) : M (params T * lbfgs) :=
  fun w =>
    (lbfgs_step lr f st.1 st.2,
     World (rng w) (steps w ++ [StepCall lr f st.1])).

(** The weight matrix [_get_weight] draws from the generator [g]. *)
Definition drawn_weight (shape : nat * nat) (g : generator) : matrix T :=
  (orthogonal_ (randn shape g).1 (randn shape g).2).1.

(** The generator after that draw. *)
Definition drawn_rng (shape : nat * nat) (g : generator) : generator :=
  (orthogonal_ (randn shape g).1 (randn shape g).2).2.

(** The successful runs of [n] optimizer steps from the state [st]: the
    calls made, in order, and the state reached. *)
Inductive run_steps (lr : T) (f : params T → result T)
  : params T * lbfgs → list step_call → params T * lbfgs → Prop :=
| run_done st : run_steps lr f st [] st
| run_step st st' st'' calls :
    lbfgs_step lr f st.1 st.2 = Ok st' →
    run_steps lr f st' calls st'' →
    run_steps lr f st (StepCall lr f st.1 :: calls) st''.

Definition default_num_steps : Z := 10.
Definition default_hidden_size : nat := 8.

(** [num_steps] and [hidden_size] are [None] where the caller leaves them to
    their defaults.  [hidden_size] is a layer width, a natural number. *)
Definition get_fitted_model (X Y : matrix T) (total_counts : option (list T))
  (fn : evaluation_fn) (null nonlinear : bool) (num_steps : option Z)
  (hidden_size : option nat) : M partial :=
  let num_steps := default default_num_steps num_steps in
  let hidden_size := default default_hidden_size hidden_size in
  '(intercepts, coeffs) ← allocate X Y null nonlinear hidden_size;
  scale ←
    (if decide (fn = EvaluateNormal)
     then
       if total_counts is None
       then mret (Some (replicate 1 szero))
       else raise AssertionError
     else mret None);
  let params := Params coeffs intercepts scale in
  '(params, _) ←
    repeat_M (Z.to_nat num_steps)
      (optimizer_step (slit (1 # 10)) (closure X Y total_counts fn))
      (params, lbfgs_new);
  mret (Partial fn params).

End Fitter.

(** ** The orchestrators *)

(** A value of the results mapping: a Python float or an array. *)
Inductive value (T : Type) :=
| Float (x : T)
| Array (t : tensor T).
Arguments Float {T} x.
Arguments Array {T} t.

(** A table: its number of rows and its named columns. *)
Record dataframe (T : Type) := DataFrame {
  df_len : nat;
  df_data : gmap string (list T);
}.
Arguments DataFrame {T} df_len df_data.
Arguments df_len {T} d.
Arguments df_data {T} d.

Section Orchestrators.
Context {T : Type} `{Scalar T} `{Torch T}.

(** The default label lists are constants of
    [bb_network_decomposition.constants]. *)
Variables location_labels supplementary_labels : list string.

(** Modelled from the spec: [bb_network_decomposition.stats.rho_mcf], the
    McFadden pseudo-R², 1 - fitted log-likelihood / null log-likelihood. *)
Definition rho_mcf (fitted null : T) : T := ssub sone (sdiv fitted null).

(** [df[name].values] *)
Definition df_column (df : dataframe T) (name : string) : result (list T) :=
  match df_data df !! name with
  | Some c => Ok c
  | None => Raise KeyError
  end.

(** [df[names].values] *)
Definition df_values (df : dataframe T) (names : list string)
  : result (matrix T) :=
  cols ← mapM (df_column df) names;
  Ok (Matrix (length names)
        (map (fun i => map (fun c => nth i c szero) cols) (seq 0 (df_len df)))).

(** [numpy.std] of one column: the square root of the mean squared
    deviation from the mean. *)
Definition np_std (v : list T) : T :=
  let m := vmean v in
  ssqrt (vmean (map (fun x => smul (ssub x m) (ssub x m)) v)).

(** [X.std(axis=0)] *)
Definition std_axis0 (X : matrix T) : list T :=
  map (fun j => np_std (column j X)) (seq 0 (ncols X)).

(** [X /= X.std(axis=0)[None, :]] *)
Definition standardize (X : matrix T) : matrix T :=
  let sd := std_axis0 X in
  Matrix (ncols X) (map (fun r => zip_with sdiv r sd) (rows X)).

(** [total_counts_used[:, None] * probs] *)
Definition scale_rows (c : list T) (P : matrix T) : matrix T :=
  Matrix (ncols P) (zip_with (fun ci r => map (smul ci) r) c (rows P)).

(** [for x in l: a = body(a, x)] *)
Fixpoint for_each {A B} (l : list B) (body : A → B → M A) (a : A) : M A :=
  match l with
  | [] => mret a
  | x :: l' => a' ← body a x; for_each l' body a'
  end.

Definition variant_name (nonlinear : bool) : string :=
  if nonlinear then "nonlinear" else "linear".

(** Lines 134 to 144. *)
Definition location_inputs (loc_df : dataframe T) (predictors labels : list string)
  : result (matrix T * matrix T * list T) :=
  X ← df_values loc_df predictors;
  let X := standardize X in
  probs ← df_values loc_df labels;
  total_counts_used ← df_column loc_df "location_descriptor_count";
  let counts := scale_rows total_counts_used probs in
  Ok (X, counts, total_counts_used).

(** The body of the loop of [get_location_likelihoods]. *)
Definition location_fit (X counts : matrix T) (total_counts_used : list T)
  (fn : evaluation_fn) (results : gmap string (value T)) (nonlinear : bool)
  : M (gmap string (value T)) :=
  let name := variant_name nonlinear in
  f ← get_fitted_model X counts (Some total_counts_used) fn false nonlinear
        None None;
  '(log_likelihood, _) ← lift (call f X counts (Some total_counts_used));
  let results := <["fitted_" +:+ name := Float (tsum log_likelihood)]> results in
  let results :=
    <["fitted_" +:+ name +:+ "_mean" := Float (tmean log_likelihood)]> results in
  let results := <["fitted_" +:+ name +:+ "_lls" := Array log_likelihood]> results in
  mret results.

(** [results[key]] of a scalar entry. *)
Definition getfloat (results : gmap string (value T)) (key : string) : result T :=
  match results !! key with
  | Some (Float x) => Ok x
  | Some (Array _) => Raise TypeError
  | None => Raise KeyError
  end.

Definition get_location_likelihoods (loc_df : dataframe T)
  (predictors : list string) (labels : option (list string))
  (fn : option evaluation_fn) : M (gmap string (value T)) :=
  let labels := default location_labels labels in
  let fn := default EvaluateMultinomial fn in
  '(X, counts, total_counts_used) ← lift (location_inputs loc_df predictors labels);
  let results : gmap string (value T) := ∅ in
  results ← for_each [false; true] (location_fit X counts total_counts_used fn) results;
  f ← get_fitted_model X counts (Some total_counts_used) fn true false None None;
  '(log_likelihood, _) ← lift (call f X counts (Some total_counts_used));
  let results := <["null" := Float (tsum log_likelihood)]> results in
  let results := <["null_mean" := Float (tmean log_likelihood)]> results in
  let results := <["null_lls" := Array log_likelihood]> results in
  fitted_linear ← lift (getfloat results "fitted_linear");
  null ← lift (getfloat results "null");
  let results := <["rho_mcf_linear" := Float (rho_mcf fitted_linear null)]> results in
  fitted_nonlinear ← lift (getfloat results "fitted_nonlinear");
  null ← lift (getfloat results "null");
  let results :=
    <["rho_mcf_nonlinear" := Float (rho_mcf fitted_nonlinear null)]> results in
  mret results.

(** Lines 184 to 191. *)
Definition regression_inputs (sup_df : dataframe T) (predictors labels : list string)
  : result (matrix T * matrix T) :=
  X ← df_values sup_df predictors;
  let X := standardize X in
  Y ← df_values sup_df labels;
  let Y := standardize Y in
  Ok (X, Y).

(** The body of the loop of [get_regression_likelihoods]. *)
Definition regression_fit (X Y : matrix T) (fn : evaluation_fn)
  (results : gmap string (value T)) (nonlinear : bool)
  : M (gmap string (value T)) :=
  let name := variant_name nonlinear in
  f ← get_fitted_model X Y None fn false nonlinear None None;
  '(log_likelihood, Y_hat) ← lift (call f X Y None);
  mse ← lift (mean_squared_error Y Y_hat);
  let results := <["fitted_" +:+ name +:+ "_mse" := Float mse]> results in
  r2 ← lift (r2_score Y Y_hat);
  let results := <["fitted_" +:+ name +:+ "_r2" := Float r2]> results in
  let results := <["fitted_" +:+ name := Float (tsum log_likelihood)]> results in
  let results :=
    <["fitted_" +:+ name +:+ "_mean" := Float (tmean log_likelihood)]> results in
  let results := <["fitted_" +:+ name +:+ "_lls" := Array log_likelihood]> results in
  mret results.

Definition get_regression_likelihoods (sup_df : dataframe T)
  (predictors : list string) (labels : option (list string))
  (fn : option evaluation_fn) : M (gmap string (value T)) :=
  let labels := default supplementary_labels labels in
  let fn := default EvaluateNormal fn in
  '(X, Y) ← lift (regression_inputs sup_df predictors labels);
  let results : gmap string (value T) := ∅ in
  results ← for_each [false; true] (regression_fit X Y fn) results;
  f ← get_fitted_model X Y None fn true false None None;
  '(log_likelihood, _) ← lift (call f X Y None);
  let results := <["null" := Float (tsum log_likelihood)]> results in
  let results := <["null_mean" := Float (tmean log_likelihood)]> results in
  mret results.

End Orchestrators.

(** ** Two models of the scalars *)

(** The real numbers: exact arithmetic. *)
#[global] Instance R_scalar : Scalar R := {|
  szero := 0%R;
  sone := 1%R;
  sadd := Rplus;
  ssub := Rminus;
  smul := Rmult;
  sdiv := Rdiv;
  sneg := Ropp;
  ssqrt := sqrt;
  snat := INR;
  slit := Q2R;
  stanh := tanh;
  ssigmoid := fun x => (1 / (1 + exp (- x)))%R;
  ssoftplus := fun x => ln (1 + exp x);
|}.

(** Symbolic scalars: every operation builds the term that names it, so
    running the model on them shows what the code computes, in which
    order. *)
Inductive sym :=
| SLit (q : Q)
| SNat (n : nat)
| SApp1 (f : string) (a : sym)
| SApp2 (f : string) (a b : sym).

#[global] Instance sym_scalar : Scalar sym := {|
  szero := SLit 0;
  sone := SLit 1;
  sadd := SApp2 "add";
  ssub := SApp2 "sub";
  smul := SApp2 "mul";
  sdiv := SApp2 "div";
  sneg := SApp1 "neg";
  ssqrt := SApp1 "sqrt";
  snat := SNat;
  slit := SLit;
  stanh := SApp1 "tanh";
  ssigmoid := SApp1 "sigmoid";
  ssoftplus := SApp1 "softplus";
|}.

(** A library over the symbolic scalars.  A distribution is the tensors it
    was built from; the generator counts the draws; one optimizer step
    evaluates the closure once and adds the symbolic update to every
    entry. *)
Definition sym_update (p : params sym) : params sym :=
  Params (map (mmap (SApp1 "lbfgs")) (coeffs p))
         (map (map (SApp1 "lbfgs")) (intercepts p))
         (map (SApp1 "lbfgs") <$> scale p).

#[global] Instance sym_torch : Torch sym := {|
  binomial := option (list sym) * list sym;
  binomial_new := fun total_count logits =>
    if total_count is None then Raise ValueError else Ok (total_count, logits);
  binomial_log_prob := fun d value =>
    Ok (zip_with (SApp2 "binomial_log_prob") d.2 value);
  normal := matrix sym * list sym;
  normal_new := fun loc scale => Ok (loc, scale);
  normal_log_prob := fun d value =>
    Ok (Matrix (ncols value)
          (zip_with (zip_with (SApp2 "normal_log_prob")) (rows d.1) (rows value)));
  multinomial := matrix sym;
  multinomial_new := fun logits => Ok logits;
  multinomial_log_prob := fun d value =>
    Ok (zip_with (fun l v => SApp2 "multinomial_log_prob" (vsum l) (vsum v))
          (rows d) (rows value));
  softmax := map (SApp1 "softmax");
  generator := nat;
  randn := fun shape g =>
    (Matrix shape.2 (replicate shape.1 (replicate shape.2 (SApp1 "randn" (SNat g)))),
     S g);
  orthogonal_ := fun M g => (mmap (SApp1 "orthogonal") M, S g);
  lbfgs := nat;
  lbfgs_new := 0;
  lbfgs_step := fun lr f p h => _ ← f p; Ok (sym_update p, S h);
  mean_squared_error := fun y_true y_pred =>
    Ok (SApp2 "mean_squared_error" (tsum (Mat y_true)) (tsum y_pred));
  r2_score := fun y_true y_pred =>
    Ok (SApp2 "r2_score" (tsum (Mat y_true)) (tsum y_pred));
|}.

(** A table column with mean 2 and standard deviation 2, as a matrix of one
    column. *)
Definition column_0_4 : matrix R := Matrix 1 [[0%R]; [4%R]].

(** Inputs on the symbolic scalars: two observations of two predictors, a
    response of one column and one of two, a 2×1 weight matrix with its
    bias, trial counts, a table, and a world in which nothing has happened
    yet. *)
Definition X_sym : matrix sym := Matrix 2 [[SLit 1; SLit 2]; [SLit 3; SLit 4]].
Definition Y_sym : matrix sym := Matrix 1 [[SLit 1]; [SLit 0]].
Definition Y2_sym : matrix sym := Matrix 2 [[SLit 1; SLit 0]; [SLit 0; SLit 1]].
Definition W_sym : matrix sym := Matrix 1 [[SLit 1]; [SLit (-1)]].
Definition b_sym : list sym := [SLit 0].
Definition counts_sym : list sym := [SNat 5; SNat 5].
Definition df_sym : dataframe sym :=
  DataFrame 2
    (<["x" := [SLit 1; SLit 3]]> (<["y" := [SLit 1; SLit 0]]> ∅)).
Definition world_sym : world (T := sym) := World 0 [].

(** ** Definitions for the further properties *)

(** The shapes of the parameters of a fit, by variant: those of the weight
    matrices, the sizes of the intercepts, the size of the scale. *)
Definition fitted_shape (D K hidden_size : nat) (fn : evaluation_fn)
  (null nonlinear : bool) : list (nat * nat) * list nat * option nat :=
  (if null then []
   else if nonlinear then [(D, hidden_size); (hidden_size, K)] else [(D, K)],
   if null then [K] else if nonlinear then [hidden_size; K] else [K],
   if decide (fn = EvaluateNormal) then Some 1 else None).

(** The keys of the two results mappings. *)
Definition fit_keys (name : string) : list string :=
  ["fitted_" +:+ name; "fitted_" +:+ name +:+ "_mean";
   "fitted_" +:+ name +:+ "_lls"].

Definition location_keys : gset string :=
  list_to_set
    (fit_keys "linear" ++ fit_keys "nonlinear"
     ++ ["null"; "null_mean"; "null_lls"; "rho_mcf_linear"; "rho_mcf_nonlinear"]).

Definition regression_keys : gset string :=
  list_to_set
    (["fitted_linear_mse"; "fitted_linear_r2"] ++ fit_keys "linear"
     ++ ["fitted_nonlinear_mse"; "fitted_nonlinear_r2"] ++ fit_keys "nonlinear"
     ++ ["null"; "null_mean"]).

(** A library over the real numbers, to run the evaluators on them.  The
    normal log-density is the exact one; the two count distributions
    return the log-likelihood without its combinatorial term; nothing is
    drawn at random and the optimizer leaves the parameters as they are. *)
Definition normal_log_density (mu sigma y : R) : R :=
  (- ((y - mu) * (y - mu)) / (2 * (sigma * sigma)) - ln sigma
   - ln (sqrt (2 * PI)))%R.

#[global] Instance R_torch : Torch R := {|
  binomial := list R * list R;
  binomial_new := fun total_count logits =>
    match total_count with
    | Some n => Ok (n, logits)
    | None => Raise ValueError
    end;
  binomial_log_prob := fun d value =>
    Ok (zip_with (fun nl k =>
          (k * ln (ssigmoid nl.2) + (nl.1 - k) * ln (1 - ssigmoid nl.2))%R)
          (zip d.1 d.2) value);
  normal := matrix R * list R;
  normal_new := fun loc scale => Ok (loc, scale);
  normal_log_prob := fun d value =>
    Ok (Matrix (ncols value)
          (zip_with (fun ms ys =>
              zip_with (fun m y => normal_log_density m (nth 0 d.2 0%R) y) ms ys)
             (rows d.1) (rows value)));
  multinomial := matrix R;
  multinomial_new := fun logits => Ok logits;
  multinomial_log_prob := fun d value =>
    Ok (zip_with (fun l v =>
          (dot v l - vsum v * ln (vsum (map exp l)))%R) (rows d) (rows value));
  softmax := fun l => map (fun x => (exp x / vsum (map exp l))%R) l;
  generator := unit;
  randn := fun shape g =>
    (Matrix shape.2 (replicate shape.1 (replicate shape.2 0%R)), g);
  orthogonal_ := fun M g => (M, g);
  lbfgs := unit;
  lbfgs_new := tt;
  lbfgs_step := fun lr f p h => _ ← f p; Ok (p, h);
  mean_squared_error := fun y_true y_pred =>
    Ok (vmean (zip_with (fun a b => ((a - b) * (a - b))%R)
                 (concat (rows y_true))
                 (match y_pred with Vec v => v | Mat m => concat (rows m) end)));
  r2_score := fun y_true y_pred => Ok 0%R;
|}.

(** Whether a computation returned. *)
Definition is_Ok {A} (r : result A) : bool :=
  match r with Ok _ => true | Raise _ => false end.

(** Tables: one on the symbolic scalars with two label columns and trial
    counts, one on the real numbers. *)
Definition loc_df_sym : dataframe sym :=
  DataFrame 2
    (<["x" := [SLit 1; SLit 3]]>
     (<["a" := [SLit (1 # 2); SLit 1]]>
     (<["b" := [SLit (1 # 2); SLit 0]]>
     (<["location_descriptor_count" := [SNat 4; SNat 6]]> ∅)))).


(** * Properties *)

(** ** The result monad *)

Lemma result_bind_Ok {A B} (f : A → result B) (a : A) : Ok a ≫= f = f a.
Proof. reflexivity. Qed.

Lemma result_bind_ret {A} (r : result A) : r ≫= Ok = r.
Proof. by destruct r. Qed.

Lemma result_bind_inv {A B} (f : A → result B) (r : result A) (b : B) :
  r ≫= f = Ok b → ∃ a, r = Ok a ∧ f a = Ok b.
Proof. destruct r as [a|e]; [eauto | discriminate]. Qed.

Lemma getitem_lookup {A} (l : list A) (i : nat) (x : A) :
  l !! i = Some x → getitem l i = Ok x.
Proof. unfold getitem. by intros ->. Qed.

(** ** The output transform *)

Section OutputFacts.
Context {T : Type} `{Scalar T}.

(** One turn of the loop, where both lists have an [i]-th element. *)
Lemma layer_lookup (intercepts : list (list T)) (coeffs : list (matrix T))
  (X W : matrix T) (b : list T) (i : nat) :
  coeffs !! i = Some W →
  intercepts !! i = Some b →
  layer intercepts coeffs X i
  = mm X W ≫= fun XW =>
      broadcast_mv sadd XW b ≫= fun X' =>
        if decide (Z.of_nat i < Z.of_nat (length coeffs) - 1)%Z
        then Ok (mmap stanh X') else Ok X'.
Proof.
  intros HW Hb. unfold layer.
  rewrite (getitem_lookup _ _ _ HW), result_bind_Ok.
  destruct (mm X W) as [XW|e]; [|reflexivity].
  rewrite !result_bind_Ok, (getitem_lookup _ _ _ Hb). reflexivity.
Qed.

(** The loop of [get_output] from turn [k] on computes the layers from the
    [k]-th on. *)
Lemma for_range_affine_layers (intercepts : list (list T))
  (coeffs : list (matrix T)) (suf : list (matrix T)) :
  ∀ (k : nat) (X : matrix T),
    drop k coeffs = suf →
    length coeffs ≤ length intercepts →
    for_range (seq k (length suf)) (layer intercepts coeffs) X
    = affine_layers X (zip suf (drop k intercepts)).
Proof.
  induction suf as [|W suf IH]; intros k X Hdrop Hlen; [reflexivity|].
  assert (HW : coeffs !! k = Some W).
  { rewrite <- (Nat.add_0_r k), <- lookup_drop, Hdrop. reflexivity. }
  assert (Hsuf : drop (S k) coeffs = suf).
  { rewrite (drop_S _ _ _ HW) in Hdrop. congruence. }
  assert (Hk : length coeffs = k + S (length suf)).
  { apply (f_equal length) in Hdrop. rewrite length_drop in Hdrop.
    simpl in Hdrop. apply lookup_lt_Some in HW. lia. }
  destruct (lookup_lt_is_Some_2 intercepts k) as [b Hb]; [lia|].
  rewrite (drop_S _ _ _ Hb).
  cbn [length seq for_range zip_with affine_layers].
  rewrite (layer_lookup _ _ _ _ _ _ HW Hb).
  destruct (mm X W) as [XW|e]; [|reflexivity]. rewrite !result_bind_Ok.
  destruct (broadcast_mv sadd XW b) as [X'|e]; [|reflexivity].
  rewrite !result_bind_Ok.
  destruct suf as [|W' suf'].
  - rewrite decide_False by (simpl in Hk; lia). reflexivity.
  - rewrite decide_True by (simpl in Hk; lia). rewrite result_bind_Ok.
    rewrite (IH (S k) _ Hsuf Hlen).
    destruct (lookup_lt_is_Some_2 intercepts (S k)) as [b' Hb'];
      [simpl in Hk; lia|].
    rewrite (drop_S _ _ _ Hb'). reflexivity.
Qed.

(** C2: for a non-empty list of weight matrices, each with its bias vector,
    [get_output] applies the affine layers [X @ W_i + b_i] in sequence,
    with tanh after every layer except the last; with exactly one weight
    matrix no tanh is applied. *)
Theorem get_output_affine_layers (X Y : matrix T) (intercepts : list (list T))
  (coeffs : list (matrix T)) :
  coeffs ≠ [] →
  length intercepts = length coeffs →
  get_output X Y intercepts coeffs = affine_layers X (zip coeffs intercepts)
  ∧ (∀ W b, coeffs = [W] → intercepts = [b] →
       get_output X Y intercepts coeffs = mm X W ≫= fun XW => broadcast_mv sadd XW b).
Proof.
  intros Hne Hlen.
  assert (Hout : get_output X Y intercepts coeffs
                 = affine_layers X (zip coeffs intercepts)).
  { unfold get_output.
    rewrite (for_range_affine_layers intercepts coeffs coeffs 0 X); [|done|lia].
    rewrite drop_0.
    destruct (affine_layers X (zip coeffs intercepts)) as [X'|e]; [|reflexivity].
    rewrite result_bind_Ok, decide_False; [reflexivity|].
    destruct coeffs; [done|discriminate]. }
  split; [exact Hout|].
  intros W b -> ->. rewrite Hout. simpl.
  destruct (mm X W) as [XW|e]; [|reflexivity]. simpl.
  apply result_bind_ret.
Qed.

(** The null model does not read [X]. *)
Lemma get_output_null (X1 X2 Y : matrix T) (intercepts : list (list T)) :
  get_output X1 Y intercepts [] = get_output X2 Y intercepts [].
Proof. reflexivity. Qed.

(** What the null model returns: the last intercept added to [Y * 0]. *)
Lemma get_output_null_eq (X Y : matrix T) (intercepts : list (list T)) :
  get_output X Y intercepts []
  = getitem_last intercepts ≫= fun b =>
      broadcast_mv (fun y0 b => sadd b y0) (mmap (fun y => smul y szero) Y) b.
Proof. reflexivity. Qed.

Lemma first_column_Ok (M : matrix T) :
  ncols M ≠ 0 → first_column M = Ok (column 0 M).
Proof. intros Hne. unfold first_column. by rewrite decide_False. Qed.

End OutputFacts.

(** ** The evaluators *)

Section EvaluatorFacts.
Context {T : Type} `{Scalar T} `{Torch T}.

(** C3: with an empty list of weight matrices every evaluator returns the
    same log-likelihoods and point estimate for any two inputs [X1] and
    [X2]; the output is the last intercept broadcast over [Y * 0]. *)
Theorem null_model_independent_of_X (fn : evaluation_fn) (X1 X2 Y : matrix T)
  (total_counts scale : option (list T)) (intercepts : list (list T)) :
  evaluate fn X1 Y total_counts scale intercepts []
  = evaluate fn X2 Y total_counts scale intercepts []
  ∧ get_output X1 Y intercepts []
    = getitem_last intercepts ≫= fun b =>
        broadcast_mv (fun y0 b => sadd b y0) (mmap (fun y => smul y szero) Y) b.
Proof.
  split; [|apply get_output_null_eq].
  destruct fn; unfold evaluate, evaluate_binomial, evaluate_normal,
    evaluate_normal_eps, evaluate_multinomial;
    rewrite (get_output_null X1 X2); reflexivity.
Qed.

(** C4: on an output whose last dimension is not 1 the binomial evaluator
    raises an assertion error; on one whose last dimension is 1 it returns
    the log-probability of the first column of [Y] under the binomial
    distribution of the given [total_counts] with the output as logits,
    together with the sigmoid of the logits. *)
Theorem evaluate_binomial_output_dim (X Y : matrix T)
  (total_counts scale : option (list T)) (intercepts : list (list T))
  (coeffs : list (matrix T)) (logits : matrix T) :
  get_output X Y intercepts coeffs = Ok logits →
  (ncols logits ≠ 1 →
   evaluate_binomial X Y total_counts scale intercepts coeffs
   = Raise AssertionError)
  ∧ (ncols logits = 1 →
     ∀ d y log_probs,
       binomial_new total_counts (column 0 logits) = Ok d →
       first_column Y = Ok y →
       binomial_log_prob d y = Ok log_probs →
       evaluate_binomial X Y total_counts scale intercepts coeffs
       = Ok (Vec log_probs, Vec (map ssigmoid (column 0 logits)))).
Proof.
  intros Hout. unfold evaluate_binomial. rewrite Hout, result_bind_Ok.
  split.
  - intros Hne. by rewrite decide_False.
  - intros H1 d y log_probs Hd Hy Hlp. rewrite decide_True by done.
    rewrite (first_column_Ok logits) by (rewrite H1; discriminate).
    rewrite result_bind_Ok, Hd, result_bind_Ok, Hy, result_bind_Ok, Hlp.
    reflexivity.
Qed.

(** C9: the normal evaluator does not read [total_counts]: any two values of
    it, [None] or not, give the same result, exception or not. *)
Theorem evaluate_normal_ignores_total_counts (X Y : matrix T)
  (total_counts1 total_counts2 scale : option (list T))
  (intercepts : list (list T)) (coeffs : list (matrix T)) :
  evaluate_normal X Y total_counts1 scale intercepts coeffs
  = evaluate_normal X Y total_counts2 scale intercepts coeffs.
Proof. reflexivity. Qed.

End EvaluatorFacts.

(** ** The model fitter *)

Section FitterFacts.
Context {T : Type} `{Scalar T} `{Torch T}.

Lemma _get_weight_eq (shape : nat * nat) (w : world) :
  _get_weight shape w
  = (Ok (drawn_weight shape (rng w)),
     World (drawn_rng shape (rng w)) (steps w)).
Proof.
  unfold _get_weight, drawn_weight, drawn_rng, with_rng, mbind, M_bind.
  destruct w as [g s]. simpl.
  destruct (randn shape g) as [m g1]. simpl.
  destruct (orthogonal_ m g1) as [m' g2]. reflexivity.
Qed.

Lemma drawn_weight_shape `{!TorchLaws T} (n k : nat) (g : generator) :
  mshape (drawn_weight (n, k) g) = (n, k) ∧ wf_matrix (drawn_weight (n, k) g).
Proof.
  unfold drawn_weight.
  destruct (randn_shape n k g) as [Hs Hwf].
  destruct (orthogonal_shape _ (randn (n, k) g).2 Hwf) as [Hs' Hwf'].
  split; [congruence|done].
Qed.

(** What [allocate] returns, by variant. *)
Lemma allocate_eq (X Y : matrix T) (null nonlinear : bool) (hidden_size : nat)
  (w : world) :
  allocate X Y null nonlinear hidden_size w =
  if null then (Ok ([_get_intercept (ncols Y)], []), w)
  else if nonlinear then
    let g1 := drawn_rng (ncols X, hidden_size) (rng w) in
    (Ok ([_get_intercept hidden_size; _get_intercept (ncols Y)],
         [drawn_weight (ncols X, hidden_size) (rng w);
          drawn_weight (hidden_size, ncols Y) g1]),
     World (drawn_rng (hidden_size, ncols Y) g1) (steps w))
  else
    (Ok ([_get_intercept (ncols Y)], [drawn_weight (ncols X, ncols Y) (rng w)]),
     World (drawn_rng (ncols X, ncols Y) (rng w)) (steps w)).
Proof.
  unfold allocate. destruct null; [reflexivity|]. simpl negb. cbv iota.
  destruct nonlinear.
  - unfold mbind at 1, M_bind at 1. unfold mbind at 1, M_bind at 1.
    rewrite _get_weight_eq.
    unfold mbind at 1, M_bind at 1. rewrite _get_weight_eq. reflexivity.
  - unfold mbind at 1, M_bind at 1. unfold mbind at 1, M_bind at 1.
    rewrite _get_weight_eq. reflexivity.
Qed.

Lemma allocate_steps (X Y : matrix T) (null nonlinear : bool) (hidden_size : nat)
  (w : world) :
  ∃ intercepts coeffs w',
    allocate X Y null nonlinear hidden_size w = (Ok (intercepts, coeffs), w')
    ∧ steps w' = steps w.
Proof.
  rewrite allocate_eq. destruct null; [|destruct nonlinear]; simpl; eauto.
Qed.

Lemma M_bind_eq {A B} (m : M A) (f : A → M B) (w : world) :
  (m ≫= f) w
  = match m w with
    | (Ok a, w') => f a w'
    | (Raise e, w') => (Raise e, w')
    end.
Proof. reflexivity. Qed.

(** [n] optimizer steps: the generator is not touched; every call is logged
    with the learning rate and the closure of the loop; a run that does not
    raise makes exactly [n] calls. *)
Lemma repeat_optimizer_step (lr : T) (f : params T → result T) (n : nat) :
  ∀ (st : params T * lbfgs) (w : world) r w',
    repeat_M n (optimizer_step lr f) st w = (r, w') →
    rng w' = rng w
    ∧ ∃ calls,
        steps w' = steps w ++ calls
        ∧ length calls ≤ n
        ∧ Forall (fun c => call_lr c = lr ∧ call_closure c = f) calls
        ∧ ∀ st', r = Ok st' → length calls = n ∧ run_steps lr f st calls st'.
Proof.
  induction n as [|n IH]; intros st w r w' Hrun.
  - inversion Hrun; subst. split; [done|]. exists []. rewrite app_nil_r.
    split; [done|]. split; [done|]. split; [constructor|].
    intros st' [= <-]. split; [done|apply run_done].
  - cbn [repeat_M] in Hrun. rewrite M_bind_eq in Hrun.
    unfold optimizer_step at 1 in Hrun.
    destruct (lbfgs_step lr f st.1 st.2) as [st1|e] eqn:Hstep.
    + apply IH in Hrun as (Hrng & calls & Hsteps & Hlen & Hall & Hok).
      split; [done|]. exists (StepCall lr f st.1 :: calls).
      cbn [steps] in Hsteps. rewrite Hsteps, <- app_assoc.
      split; [done|]. split; [simpl; lia|]. split; [by constructor|].
      intros st' Hst'. destruct (Hok _ Hst') as [Hn Hr].
      split; [simpl; lia|]. by eapply run_step.
    + inversion Hrun; subst. split; [done|]. exists [StepCall lr f st.1].
      split; [done|]. split; [simpl; lia|]. split; [by repeat constructor|].
      intros st' [=].
Qed.

(** An optimizer that updates in place keeps the shape of the parameters
    through a run. *)
Lemma run_steps_shape `{!TorchLaws T} (lr : T) (f : params T → result T)
  st calls st' :
  run_steps lr f st calls st' →
  params_shape st'.1 = params_shape st.1
  ∧ Forall (fun c => params_shape (call_params c) = params_shape st.1) calls.
Proof.
  induction 1 as [st|st st1 st2 calls Hstep Hrun [IHs IHc]]; [by split|].
  destruct st1 as [p1 h1]. apply lbfgs_step_shape in Hstep. simpl in *.
  split; [congruence|]. constructor; [done|].
  eapply Forall_impl; [exact IHc|]. simpl. congruence.
Qed.

(** The phases of a fit that returns: allocation, the check of
    [total_counts], the optimizer steps. *)
Lemma get_fitted_model_inv (X Y : matrix T) (total_counts : option (list T))
  (fn : evaluation_fn) (null nonlinear : bool) (num_steps : option Z)
  (hidden_size : option nat) (w w' : world) (f : partial) :
  get_fitted_model X Y total_counts fn null nonlinear num_steps hidden_size w
  = (Ok f, w') →
  ∃ intercepts coeffs w1 st',
    allocate X Y null nonlinear (default default_hidden_size hidden_size) w
    = (Ok (intercepts, coeffs), w1)
    ∧ (fn = EvaluateNormal → total_counts = None)
    ∧ repeat_M (Z.to_nat (default default_num_steps num_steps))
        (optimizer_step (slit (1 # 10)) (closure X Y total_counts fn))
        (Params coeffs intercepts
           (if decide (fn = EvaluateNormal) then Some (replicate 1 szero) else None),
         lbfgs_new) w1
      = (Ok st', w')
    ∧ f = Partial fn st'.1.
Proof.
  unfold get_fitted_model. rewrite M_bind_eq.
  destruct (allocate_steps X Y null nonlinear
              (default default_hidden_size hidden_size) w)
    as (intercepts & coeffs & w1 & -> & _).
  rewrite M_bind_eq. intros Hfit.
  exists intercepts, coeffs, w1.
  destruct (decide (fn = EvaluateNormal)) as [Hfn|Hfn].
  - destruct total_counts as [tc|]; [discriminate|].
    cbn [mret M_ret] in Hfit. rewrite M_bind_eq in Hfit.
    destruct (repeat_M _ _ _ w1) as [[[p h]|e] w2] eqn:Hrun; [|discriminate].
    exists (p, h). inversion Hfit; subst. done.
  - cbn [mret M_ret] in Hfit. rewrite M_bind_eq in Hfit.
    destruct (repeat_M _ _ _ w1) as [[[p h]|e] w2] eqn:Hrun; [|discriminate].
    exists (p, h). inversion Hfit; subst.
    split; [done|]. split; [done|]. done.
Qed.

(** C1: with the normal evaluator and a [total_counts] that is not [None]
    the fit raises an assertion error, whatever the other arguments; no
    optimizer step is made before it, so the evaluator is never called. *)
Theorem normal_fit_rejects_total_counts (X Y : matrix T) (total_counts : list T)
  (null nonlinear : bool) (num_steps : option Z) (hidden_size : option nat)
  (w : world) :
  ∃ w',
    get_fitted_model X Y (Some total_counts) EvaluateNormal null nonlinear
      num_steps hidden_size w
    = (Raise AssertionError, w')
    ∧ steps w' = steps w.
Proof.
  unfold get_fitted_model. rewrite M_bind_eq.
  destruct (allocate_steps X Y null nonlinear
              (default default_hidden_size hidden_size) w)
    as (intercepts & coeffs & w1 & -> & Hsteps).
  rewrite M_bind_eq. exists w1. split; [reflexivity|exact Hsteps].
Qed.

(** C5: the parameters allocated by variant.  Null: no weight matrix and one
    zero bias of size K.  Linear: one orthogonally initialised D×K matrix
    and one zero bias of size K.  Nonlinear: a zero hidden bias of size H,
    orthogonally initialised D×H and H×K matrices, and a zero output bias
    of size K.  A fit of zero steps returns exactly these. *)
Theorem allocate_by_variant `{!TorchLaws T} (X Y : matrix T)
  (null nonlinear : bool) (hidden_size : nat) (w : world) :
  ∃ biases weights w',
    allocate X Y null nonlinear hidden_size w = (Ok (biases, weights), w')
    ∧ (if null
       then weights = [] ∧ biases = [replicate (ncols Y) szero]
       else if nonlinear
       then ∃ g1 g2,
         weights = [drawn_weight (ncols X, hidden_size) g1;
                   drawn_weight (hidden_size, ncols Y) g2]
         ∧ mshape (drawn_weight (ncols X, hidden_size) g1)
           = (ncols X, hidden_size)
         ∧ mshape (drawn_weight (hidden_size, ncols Y) g2)
           = (hidden_size, ncols Y)
         ∧ biases = [replicate hidden_size szero;
                         replicate (ncols Y) szero]
       else ∃ g,
         weights = [drawn_weight (ncols X, ncols Y) g]
         ∧ mshape (drawn_weight (ncols X, ncols Y) g) = (ncols X, ncols Y)
         ∧ biases = [replicate (ncols Y) szero])
    ∧ ∀ total_counts fn f w'',
        get_fitted_model X Y total_counts fn null nonlinear (Some 0%Z)
          (Some hidden_size) w = (Ok f, w'') →
        coeffs (partial_params f) = weights
        ∧ intercepts (partial_params f) = biases.
Proof.
  destruct (allocate_steps X Y null nonlinear hidden_size w)
    as (intercepts & coeffs & w' & Halloc & _).
  exists intercepts, coeffs, w'. split; [exact Halloc|]. split.
  - rewrite allocate_eq in Halloc.
    destruct null; [|destruct nonlinear]; inversion Halloc; subst.
    + done.
    + eexists _, _. split; [reflexivity|].
      split; [apply drawn_weight_shape|].
      split; [apply drawn_weight_shape|]. reflexivity.
    + eexists. split; [reflexivity|].
      split; [apply drawn_weight_shape|]. reflexivity.
  - intros total_counts fn f w'' Hfit.
    apply get_fitted_model_inv in Hfit
      as (intercepts' & coeffs' & w1 & st' & Halloc' & _ & Hrun & ->).
    change (default default_hidden_size (Some hidden_size)) with hidden_size
      in Halloc'.
    rewrite Halloc in Halloc'.
    inversion Halloc'; subst. inversion Hrun; subst. done.
Qed.

(** C6: a fit that returns has made exactly [num_steps] optimizer steps (10
    where the caller gives none), whatever the data, the loss and the
    evaluator; each step is given the learning rate 0.1 and the closure
    that returns the total negative log-likelihood, and runs on the whole
    parameter store, from the allocated parameters to the returned ones.  A
    fit that raises has made no more steps than that. *)
Theorem fit_runs_num_steps (X Y : matrix T) (total_counts : option (list T))
  (fn : evaluation_fn) (null nonlinear : bool) (num_steps : option Z)
  (hidden_size : option nat) (w w' : world) (r : result partial) :
  (0 ≤ default default_num_steps num_steps)%Z →
  get_fitted_model X Y total_counts fn null nonlinear num_steps hidden_size w
  = (r, w') →
  default_num_steps = 10%Z
  ∧ ∃ calls,
      steps w' = steps w ++ calls
      ∧ (Z.of_nat (length calls) ≤ default default_num_steps num_steps)%Z
      ∧ Forall (fun c =>
           call_lr c = slit (1 # 10)
           ∧ ∀ p, call_closure c p
                  = evaluate fn X Y total_counts (scale p) (intercepts p) (coeffs p)
                    ≫= fun out => Ok (sneg (tsum out.1))) calls
      ∧ ∀ f, r = Ok f →
          Z.of_nat (length calls) = default default_num_steps num_steps
          ∧ ∃ biases weights sc w1 h,
              allocate X Y null nonlinear
                (default default_hidden_size hidden_size) w
              = (Ok (biases, weights), w1)
              ∧ run_steps (slit (1 # 10)) (closure X Y total_counts fn)
                  (Params weights biases sc, lbfgs_new) calls
                  (partial_params f, h).
Proof.
  intros Hn Hfit. split; [reflexivity|].
  assert (Hclosure : ∀ p,
    closure X Y total_counts fn p
    = evaluate fn X Y total_counts (scale p) (intercepts p) (coeffs p)
      ≫= fun out => Ok (sneg (tsum out.1))).
  { intros p. unfold closure.
    destruct (evaluate fn X Y total_counts (scale p) (intercepts p) (coeffs p))
      as [[lp pe]|e]; reflexivity. }
  unfold get_fitted_model in Hfit. rewrite M_bind_eq in Hfit.
  destruct (allocate_steps X Y null nonlinear
              (default default_hidden_size hidden_size) w)
    as (intercepts & coeffs & w1 & Halloc & Hsteps).
  rewrite Halloc, M_bind_eq in Hfit.
  set (sc := if decide (fn = EvaluateNormal)
             then Some (replicate 1 szero) else None : option (list T)).
  assert (Hcases :
    (r = Raise AssertionError ∧ w' = w1)
    ∨ (let '(r1, w2) :=
         repeat_M (Z.to_nat (default default_num_steps num_steps))
           (optimizer_step (slit (1 # 10)) (closure X Y total_counts fn))
           (Params coeffs intercepts sc, lbfgs_new) w1 in
       w' = w2 ∧ match r1 with
                 | Ok st' => r = Ok (Partial fn st'.1)
                 | Raise e => r = Raise e
                 end)).
  { subst sc. destruct (decide (fn = EvaluateNormal)) as [Hfn|Hfn].
    - destruct total_counts; [left; by inversion Hfit|]. right.
      cbn [mret M_ret] in Hfit. rewrite M_bind_eq in Hfit.
      destruct (repeat_M _ _ _ w1) as [[[p h]|e] w2];
        inversion Hfit; by subst.
    - right. cbn [mret M_ret] in Hfit. rewrite M_bind_eq in Hfit.
      destruct (repeat_M _ _ _ w1) as [[[p h]|e] w2];
        inversion Hfit; by subst. }
  destruct Hcases as [[-> ->]|Hrun].
  - exists []. rewrite app_nil_r. split; [done|]. split; [simpl; lia|].
    split; [constructor|]. intros f [=].
  - destruct (repeat_M _ _ _ w1) as [r1 w2] eqn:Hrep.
    destruct Hrun as [-> Hr].
    apply repeat_optimizer_step in Hrep
      as (_ & calls & Hcalls & Hlen & Hall & Hok).
    exists calls. split; [congruence|]. split; [lia|]. split.
    { eapply Forall_impl; [exact Hall|]. intros c [-> ->]. done. }
    intros f ->. destruct r1 as [[p h]|e]; [|discriminate].
    inversion Hr; subst. destruct (Hok _ eq_refl) as [Hnum Hsteps'].
    split; [lia|]. exists intercepts, coeffs, sc, w1, h. done.
Qed.

Lemma last_map {A B} (f : A → B) (l : list A) :
  last (map f l) = f <$> last l.
Proof.
  induction l as [|x [|y l] IH]; [reflexivity..|]. exact IH.
Qed.

(** The last intercept after a change that keeps the shapes. *)
Lemma last_intercept_shape (p p' : params T) (b : list T) :
  params_shape p' = params_shape p →
  last (intercepts p) = Some b →
  ∃ b', last (intercepts p') = Some b' ∧ length b' = length b.
Proof.
  intros Hshape Hlast. unfold params_shape in Hshape.
  assert (Hmap : map length (intercepts p') = map length (intercepts p))
    by congruence.
  apply (f_equal last) in Hmap. rewrite !last_map, Hlast in Hmap.
  destruct (last (intercepts p')) as [b'|]; [|discriminate].
  exists b'. split; [done|]. by inversion Hmap.
Qed.

Lemma allocate_last_intercept (X Y : matrix T) (null nonlinear : bool)
  (hidden_size : nat) (w w' : world) biases weights :
  allocate X Y null nonlinear hidden_size w = (Ok (biases, weights), w') →
  last biases = Some (replicate (ncols Y) szero).
Proof.
  rewrite allocate_eq.
  destruct null; [|destruct nonlinear]; intros [= <- <- <-]; reflexivity.
Qed.

(** C10: in every variant the allocated intercepts end with the zero output
    bias of size [Y.shape[-1]]; the parameters of every optimizer call and
    of the returned evaluator have a last intercept of that size; so the
    null branch of [get_output] on them never raises an index error. *)
Theorem fitted_intercepts_nonempty `{!TorchLaws T} (X Y : matrix T)
  (total_counts : option (list T)) (fn : evaluation_fn)
  (null nonlinear : bool) (num_steps : option Z) (hidden_size : option nat)
  (w w' : world) (f : partial) :
  get_fitted_model X Y total_counts fn null nonlinear num_steps hidden_size w
  = (Ok f, w') →
  (∃ biases weights w1,
     allocate X Y null nonlinear (default default_hidden_size hidden_size) w
     = (Ok (biases, weights), w1)
     ∧ last biases = Some (replicate (ncols Y) szero))
  ∧ (∃ b, getitem_last (intercepts (partial_params f)) = Ok b
          ∧ length b = ncols Y)
  ∧ (∃ calls, steps w' = steps w ++ calls
       ∧ Forall (fun c =>
            ∃ b, getitem_last (intercepts (call_params c)) = Ok b
                 ∧ length b = ncols Y) calls)
  ∧ ∀ X' Y' : matrix T,
      get_output X' Y' (intercepts (partial_params f)) [] ≠ Raise IndexError.
Proof.
  intros Hfit.
  apply get_fitted_model_inv in Hfit
    as (biases & weights & w1 & st' & Halloc & _ & Hrun & ->).
  pose proof (allocate_last_intercept _ _ _ _ _ _ _ _ _ Halloc) as Hlast.
  destruct (allocate_steps X Y null nonlinear
              (default default_hidden_size hidden_size) w)
    as (biases' & weights' & w1' & Halloc' & Hsteps).
  rewrite Halloc in Halloc'. inversion Halloc'; subst biases' weights' w1'.
  apply repeat_optimizer_step in Hrun as (_ & calls & Hcalls & _ & _ & Hok).
  destruct (Hok _ eq_refl) as [_ Hsteps'].
  apply run_steps_shape in Hsteps' as [Hshape Hshapes].
  assert (Hgood : ∀ p : params T,
    params_shape p
    = params_shape (Params weights biases
        (if decide (fn = EvaluateNormal) then Some (replicate 1 szero) else None)) →
    ∃ b, getitem_last (intercepts p) = Ok b ∧ length b = ncols Y).
  { intros p Hp.
    destruct (last_intercept_shape _ p _ Hp Hlast) as (b & Hb & Hlen).
    exists b. unfold getitem_last. rewrite Hb.
    split; [done|]. by rewrite Hlen, length_replicate. }
  split; [by exists biases, weights, w1|].
  split; [by apply Hgood|].
  split.
  { exists calls. split; [congruence|].
    eapply Forall_impl; [exact Hshapes|]. intros c Hc. by apply Hgood. }
  intros X' Y'. rewrite get_output_null_eq. cbn [partial_params].
  destruct (Hgood _ Hshape) as (b & -> & _). rewrite result_bind_Ok.
  unfold broadcast_mv. repeat case_decide; discriminate.
Qed.

End FitterFacts.

(** ** The orchestrators *)

(** One bind of a computation that returned: its value [x], the world [w]
    it left, and the equation [E] of that step. *)
Tactic Notation "bind_inv" hyp(H) "as" ident(x) ident(w) ident(E) :=
  rewrite M_bind_eq in H;
  match type of H with
  | match ?m with _ => _ end = _ =>
      destruct m as [[x|?] w] eqn:E; [|discriminate H]
  end.

(** The same for a step that does not touch the world. *)
Tactic Notation "lift_inv" hyp(H) "as" ident(x) ident(E) :=
  rewrite M_bind_eq in H;
  match type of H with
  | match lift ?r ?w with _ => _ end = _ =>
      change (lift r w) with (r, w) in H;
      destruct r as [x|?] eqn:E; [|discriminate H]
  end.

Section OrchestratorFacts.
Context {T : Type} `{Scalar T} `{Torch T}.
Variables location_labels supplementary_labels : list string.

(** One turn of the loop of the continuous orchestrator. *)
Lemma regression_fit_inv (X Y : matrix T) (fn : evaluation_fn)
  (results results' : gmap string (value T)) (nonlinear : bool) (w w' : world) :
  regression_fit X Y fn results nonlinear w = (Ok results', w') →
  ∃ f log_likelihood Y_hat mse r2,
    get_fitted_model X Y None fn false nonlinear None None w = (Ok f, w')
    ∧ call f X Y None = Ok (log_likelihood, Y_hat)
    ∧ mean_squared_error Y Y_hat = Ok mse
    ∧ r2_score Y Y_hat = Ok r2
    ∧ results' =
        <["fitted_" +:+ variant_name nonlinear +:+ "_lls" := Array log_likelihood]>
        (<["fitted_" +:+ variant_name nonlinear +:+ "_mean"
             := Float (tmean log_likelihood)]>
        (<["fitted_" +:+ variant_name nonlinear := Float (tsum log_likelihood)]>
        (<["fitted_" +:+ variant_name nonlinear +:+ "_r2" := Float r2]>
        (<["fitted_" +:+ variant_name nonlinear +:+ "_mse" := Float mse]>
           results)))).
Proof.
  unfold regression_fit. intros Hfit.
  bind_inv Hfit as f w1 Hf.
  lift_inv Hfit as out Hcall. destruct out as [log_likelihood Y_hat].
  lift_inv Hfit as mse Hmse.
  lift_inv Hfit as r2 Hr2.
  inversion Hfit; subst.
  exists f, log_likelihood, Y_hat, mse, r2. done.
Qed.

(** One turn of the loop of the categorical orchestrator. *)
Lemma location_fit_inv (X counts : matrix T) (total_counts_used : list T)
  (fn : evaluation_fn) (results results' : gmap string (value T))
  (nonlinear : bool) (w w' : world) :
  location_fit X counts total_counts_used fn results nonlinear w
  = (Ok results', w') →
  ∃ f log_likelihood probs,
    get_fitted_model X counts (Some total_counts_used) fn false nonlinear
      None None w = (Ok f, w')
    ∧ call f X counts (Some total_counts_used) = Ok (log_likelihood, probs)
    ∧ results' =
        <["fitted_" +:+ variant_name nonlinear +:+ "_lls" := Array log_likelihood]>
        (<["fitted_" +:+ variant_name nonlinear +:+ "_mean"
             := Float (tmean log_likelihood)]>
        (<["fitted_" +:+ variant_name nonlinear := Float (tsum log_likelihood)]>
           results)).
Proof.
  unfold location_fit. intros Hfit.
  bind_inv Hfit as f w1 Hf.
  lift_inv Hfit as out Hcall. destruct out as [log_likelihood probs].
  inversion Hfit; subst.
  exists f, log_likelihood, probs. done.
Qed.

(** Reading a key of a mapping built by insertions at literal keys. *)
Ltac lookup_inserts :=
  cbn [variant_name String.append];
  repeat (rewrite lookup_insert_ne by discriminate);
  first [apply lookup_insert_eq | apply lookup_empty].

(** The results of the categorical orchestrator: the total log-likelihoods
    of the three fits and the two pseudo-R² computed from them. *)
Lemma location_results (loc_df : dataframe T) (predictors : list string)
  (labels : option (list string)) (fn : option evaluation_fn)
  (w w' : world) (results : gmap string (value T)) :
  get_location_likelihoods location_labels loc_df predictors labels fn w
  = (Ok results, w') →
  ∃ fitted_linear fitted_nonlinear null,
    results !! "fitted_linear" = Some (Float fitted_linear)
    ∧ results !! "fitted_nonlinear" = Some (Float fitted_nonlinear)
    ∧ results !! "null" = Some (Float null)
    ∧ results !! "rho_mcf_linear" = Some (Float (rho_mcf fitted_linear null))
    ∧ results !! "rho_mcf_nonlinear"
      = Some (Float (rho_mcf fitted_nonlinear null)).
Proof.
  unfold get_location_likelihoods. intros Hrun.
  lift_inv Hrun as inputs Hin. destruct inputs as [[X counts] total_counts_used].
  cbn [for_each] in Hrun.
  bind_inv Hrun as results2 w2 Hloop.
  bind_inv Hloop as results1 w1 Hlin.
  bind_inv Hloop as results2' w2' Hnon.
  inversion Hloop; subst results2' w2'. clear Hloop.
  apply location_fit_inv in Hlin as (f1 & ll1 & p1 & _ & _ & ->).
  apply location_fit_inv in Hnon as (f2 & ll2 & p2 & _ & _ & ->).
  bind_inv Hrun as f0 w3 Hnull.
  lift_inv Hrun as out Hcall. destruct out as [ll0 p0].
  assert (Hget : ∀ (m : gmap string (value T)) k x,
            m !! k = Some (Float x) → getfloat m k = Ok x).
  { intros m k x Hk. unfold getfloat. by rewrite Hk. }
  lift_inv Hrun as fl Hfl.
  rewrite (Hget _ _ (tsum ll1)) in Hfl by lookup_inserts.
  lift_inv Hrun as n1 Hn1.
  rewrite (Hget _ _ (tsum ll0)) in Hn1 by lookup_inserts.
  lift_inv Hrun as fnl Hfnl.
  rewrite (Hget _ _ (tsum ll2)) in Hfnl by lookup_inserts.
  lift_inv Hrun as n2 Hn2.
  rewrite (Hget _ _ (tsum ll0)) in Hn2 by lookup_inserts.
  inversion Hfl; inversion Hn1; inversion Hfnl; inversion Hn2; subst.
  inversion Hrun; subst.
  exists (tsum ll1), (tsum ll2), (tsum ll0).
  repeat split; lookup_inserts.
Qed.

(** C8: the results of the continuous orchestrator hold, for the linear and
    for the nonlinear fit, the mean squared error and the R² of the fitted
    mean prediction against the standardized response, and hold no
    pseudo-R²; the results of the categorical orchestrator hold
    [rho_mcf_linear] and [rho_mcf_nonlinear], computed from the fitted and
    the null total log-likelihoods. *)
Theorem regression_results_mse_r2 (sup_df : dataframe T)
  (predictors : list string) (labels : option (list string))
  (fn : option evaluation_fn) (w w' : world)
  (results : gmap string (value T)) :
  get_regression_likelihoods supplementary_labels sup_df predictors labels fn w
  = (Ok results, w') →
  (∃ X Y,
     regression_inputs sup_df predictors (default supplementary_labels labels)
     = Ok (X, Y)
     ∧ ∀ nonlinear : bool, ∃ f log_likelihood Y_hat mse r2 w0 w1,
         get_fitted_model X Y None (default EvaluateNormal fn) false nonlinear
           None None w0 = (Ok f, w1)
         ∧ call f X Y None = Ok (log_likelihood, Y_hat)
         ∧ mean_squared_error Y Y_hat = Ok mse
         ∧ r2_score Y Y_hat = Ok r2
         ∧ results !! ("fitted_" +:+ variant_name nonlinear +:+ "_mse")
           = Some (Float mse)
         ∧ results !! ("fitted_" +:+ variant_name nonlinear +:+ "_r2")
           = Some (Float r2))
  ∧ results !! "rho_mcf_linear" = None
  ∧ results !! "rho_mcf_nonlinear" = None
  ∧ ∀ loc_df predictors' labels' fn' v v' (results' : gmap string (value T)),
      get_location_likelihoods location_labels loc_df predictors' labels' fn' v
      = (Ok results', v') →
      ∃ fitted_linear fitted_nonlinear null,
        results' !! "fitted_linear" = Some (Float fitted_linear)
        ∧ results' !! "fitted_nonlinear" = Some (Float fitted_nonlinear)
        ∧ results' !! "null" = Some (Float null)
        ∧ results' !! "rho_mcf_linear"
          = Some (Float (rho_mcf fitted_linear null))
        ∧ results' !! "rho_mcf_nonlinear"
          = Some (Float (rho_mcf fitted_nonlinear null)).
Proof.
  unfold get_regression_likelihoods. intros Hrun.
  lift_inv Hrun as inputs Hin. destruct inputs as [X Y].
  cbn [for_each] in Hrun.
  bind_inv Hrun as results2 w2 Hloop.
  bind_inv Hloop as results1 w1 Hlin.
  bind_inv Hloop as results2' w2' Hnon.
  inversion Hloop; subst results2' w2'. clear Hloop.
  apply regression_fit_inv in Hlin
    as (f1 & ll1 & Yh1 & mse1 & r21 & Hf1 & Hc1 & Hmse1 & Hr21 & ->).
  apply regression_fit_inv in Hnon
    as (f2 & ll2 & Yh2 & mse2 & r22 & Hf2 & Hc2 & Hmse2 & Hr22 & ->).
  bind_inv Hrun as f0 w3 Hnull.
  lift_inv Hrun as out Hcall. destruct out as [ll0 p0].
  inversion Hrun; subst. clear Hrun.
  split; [|split; [lookup_inserts|split; [lookup_inserts|]]].
  - exists X, Y. split; [done|]. intros [|].
    + exists f2, ll2, Yh2, mse2, r22, w1, w2.
      repeat split; try done; lookup_inserts.
    + exists f1, ll1, Yh1, mse1, r21, w, w1.
      repeat split; try done; lookup_inserts.
  - intros loc_df predictors' labels' fn' v v' results'.
    apply location_results.
Qed.

End OrchestratorFacts.

(** ** Standardization *)

Section StandardizeFacts.
Context {T : Type} `{Scalar T}.

Lemma nth_zip_with {A B C} (f : A → B → C) (l : list A) :
  ∀ (k : list B) (j : nat) (a : A) (b : B) (c : C),
    j < length l → j < length k →
    nth j (zip_with f l k) c = f (nth j l a) (nth j k b).
Proof.
  induction l as [|x l IH]; intros [|y k] j a b c Hl Hk; simpl in *; try lia.
  destruct j as [|j]; [reflexivity|]. apply IH; lia.
Qed.

Lemma nth_std_axis0 (X : matrix T) (j : nat) :
  j < ncols X → nth j (std_axis0 X) szero = np_std (column j X).
Proof.
  intros Hj. unfold std_axis0.
  rewrite (nth_indep _ szero (np_std (column 0 X)))
    by (rewrite length_map, length_seq; lia).
  rewrite (map_nth (fun j => np_std (column j X)) (seq 0 (ncols X)) 0 j).
  by rewrite seq_nth.
Qed.

(** A column of the standardized matrix is the column divided by its own
    standard deviation. *)
Lemma column_standardize (X : matrix T) (j : nat) :
  wf_matrix X → j < ncols X →
  column j (standardize X)
  = map (fun x => sdiv x (np_std (column j X))) (column j X).
Proof.
  intros Hwf Hj. pose proof (nth_std_axis0 X j Hj) as Hs.
  set (s := np_std (column j X)) in *.
  unfold column, standardize. cbn [rows].
  rewrite !map_map. apply map_ext_Forall.
  eapply Forall_impl; [exact Hwf|]. intros r Hr. cbn beta in *.
  rewrite <- Hs.
  apply nth_zip_with; [lia|].
  unfold std_axis0. rewrite length_map, length_seq. lia.
Qed.

Lemma mapM_result_length {A B} (f : A → result B) (l : list A) :
  ∀ k, mapM f l = Ok k → length k = length l.
Proof.
  induction l as [|x l IH]; intros k Hk; simpl in Hk.
  - by inversion Hk.
  - destruct (f x) as [y|e]; [|discriminate]. simpl in Hk.
    destruct (mapM f l) as [k'|e]; [|discriminate]. simpl in Hk.
    inversion Hk; subst. simpl. f_equal. by apply IH.
Qed.

(** The values of a table form a matrix with a column per name. *)
Lemma df_values_wf (df : dataframe T) (names : list string) (M : matrix T) :
  df_values df names = Ok M → wf_matrix M ∧ ncols M = length names.
Proof.
  unfold df_values. intros HM.
  destruct (mapM (df_column df) names) as [cols|e] eqn:Hcols; [|discriminate].
  simpl in HM. inversion HM; subst. clear HM.
  apply mapM_result_length in Hcols.
  split; [|reflexivity]. unfold wf_matrix. cbn [rows ncols].
  apply Forall_map, Forall_forall. intros i _.
  by rewrite length_map.
Qed.

(** Both orchestrators standardize the values of the predictor columns,
    the continuous one also those of the label columns. *)
Lemma regression_inputs_inv (df : dataframe T) (predictors labels : list string)
  (X Y : matrix T) :
  regression_inputs df predictors labels = Ok (X, Y) →
  ∃ X0 Y0,
    df_values df predictors = Ok X0 ∧ df_values df labels = Ok Y0
    ∧ wf_matrix X0 ∧ wf_matrix Y0
    ∧ X = standardize X0 ∧ Y = standardize Y0.
Proof.
  unfold regression_inputs. intros Hin.
  destruct (df_values df predictors) as [X0|e] eqn:HX; [|discriminate].
  destruct (df_values df labels) as [Y0|e] eqn:HY; [|discriminate].
  simpl in Hin. inversion Hin; subst.
  exists X0, Y0. apply df_values_wf in HX as [? _], HY as [? _]. done.
Qed.

Lemma location_inputs_inv (df : dataframe T) (predictors labels : list string)
  (X counts : matrix T) (total_counts_used : list T) :
  location_inputs df predictors labels = Ok (X, counts, total_counts_used) →
  ∃ X0, df_values df predictors = Ok X0 ∧ wf_matrix X0 ∧ X = standardize X0.
Proof.
  unfold location_inputs. intros Hin.
  destruct (df_values df predictors) as [X0|e] eqn:HX; [|discriminate].
  destruct (df_values df labels) as [P|e]; [|discriminate].
  destruct (df_column df "location_descriptor_count") as [c|e]; [|discriminate].
  simpl in Hin. inversion Hin; subst.
  exists X0. apply df_values_wf in HX as [? _]. done.
Qed.

End StandardizeFacts.

(** ** Standardization, on the real numbers *)

Section Standardization.
Local Open Scope R_scope.

Lemma fold_left_Rplus (v : list R) (a : R) :
  fold_left Rplus v a = a + fold_left Rplus v 0.
Proof.
  revert a. induction v as [|x v IH]; intros a; simpl; [lra|].
  rewrite (IH (a + x)), (IH (0 + x)). lra.
Qed.

Lemma vsum_cons (x : R) (v : list R) : vsum (x :: v) = x + vsum v.
Proof.
  unfold vsum. simpl. rewrite fold_left_Rplus. lra.
Qed.

Lemma vsum_map_scale (g : R → R) (c : R) (v : list R) :
  vsum (map (fun x => g x * c) v) = vsum (map g v) * c.
Proof.
  induction v as [|x v IH]; [unfold vsum; simpl; lra|].
  cbn [map]. rewrite !vsum_cons, IH. lra.
Qed.

Lemma vmean_map_scale (g : R → R) (c : R) (v : list R) :
  vmean (map (fun x => g x * c) v) = vmean (map g v) * c.
Proof.
  unfold vmean. rewrite vsum_map_scale, !length_map. simpl. unfold Rdiv. lra.
Qed.

(** The mean of a column divided by [s]. *)
Lemma vmean_div (s : R) (v : list R) :
  vmean (map (fun x => x / s) v) = vmean v / s.
Proof.
  rewrite <- (map_id v) at 2.
  apply (vmean_map_scale (fun x => x) (/ s)).
Qed.

(** The standard deviation of a column divided by its own standard
    deviation. *)
Lemma np_std_div (v : list R) :
  np_std v ≠ 0 → np_std (map (fun x => x / np_std v) v) = 1.
Proof.
  intros Hs. set (s := np_std v) in *.
  set (V := vmean (map (fun x => (x - vmean v) * (x - vmean v)) v)).
  assert (HsV : s = sqrt V) by reflexivity.
  assert (HV : 0 < V).
  { destruct (Rlt_or_le 0 V) as [Hpos|Hneg]; [done|].
    exfalso. apply Hs. rewrite HsV. by apply sqrt_neg_0. }
  unfold np_std at 1. cbv zeta. cbn [ssqrt smul ssub R_scalar].
  rewrite vmean_div, map_map.
  rewrite (map_ext _ (fun x => ((x - vmean v) * (x - vmean v)) * (/ s * / s)))
    by (intros x; unfold Rdiv; ring).
  rewrite (vmean_map_scale (fun x => (x - vmean v) * (x - vmean v))).
  fold V. rewrite <- Rinv_mult, HsV, sqrt_sqrt by lra.
  rewrite Rinv_r by lra. apply sqrt_1.
Qed.

(** A standardized column of non-zero standard deviation: its standard
    deviation is 1 and its mean is the old mean divided by the old standard
    deviation. *)
Lemma standardize_column (X : matrix R) (j : nat) :
  wf_matrix X → (j < ncols X)%nat → np_std (column j X) ≠ 0 →
  np_std (column j (standardize X)) = 1
  ∧ vmean (column j (standardize X))
    = vmean (column j X) / np_std (column j X).
Proof.
  intros Hwf Hj Hs. rewrite (column_standardize X j Hwf Hj).
  cbn [sdiv R_scalar]. split; [by apply np_std_div|apply vmean_div].
Qed.

Lemma np_std_column_0_4 : np_std (column 0 column_0_4) = 2.
Proof.
  unfold np_std, column, column_0_4, vmean, vsum. simpl.
  replace ((0 + (0 - (0 + 0 + 4) / (1 + 1)) * (0 - (0 + 0 + 4) / (1 + 1))
            + (4 - (0 + 0 + 4) / (1 + 1)) * (4 - (0 + 0 + 4) / (1 + 1)))
           / (1 + 1)) with (2 * 2) by lra.
  apply sqrt_square. lra.
Qed.

Lemma vmean_column_0_4 : vmean (column 0 column_0_4) = 2.
Proof. unfold column, column_0_4, vmean, vsum. simpl. lra. Qed.

Lemma wf_column_0_4 : wf_matrix column_0_4.
Proof. by repeat constructor. Qed.

(** The claim C7 as stated fails on the column (0, 4): standardized, it has
    standard deviation 1, and its mean is 1 where it was 2. *)
Lemma standardize_changes_mean :
  wf_matrix column_0_4
  ∧ np_std (column 0 column_0_4) ≠ 0
  ∧ np_std (column 0 (standardize column_0_4)) = 1
  ∧ vmean (column 0 (standardize column_0_4)) ≠ vmean (column 0 column_0_4).
Proof.
  assert (Hs : np_std (column 0 column_0_4) ≠ 0)
    by (rewrite np_std_column_0_4; lra).
  destruct (standardize_column column_0_4 0 wf_column_0_4) as [Hstd Hmean];
    [simpl; lia|exact Hs|].
  split; [exact wf_column_0_4|]. split; [exact Hs|]. split; [exact Hstd|].
  rewrite Hmean, np_std_column_0_4, vmean_column_0_4. lra.
Qed.

(** C7 (amended): in both orchestrators the predictor columns, and in the
    continuous one the response columns, are divided by their own standard
    deviation; a column of non-zero standard deviation then has standard
    deviation 1, and its mean is the original mean divided by that standard
    deviation: nothing is subtracted. *)
Theorem standardization_scales_columns (X : matrix R) (j : nat) :
  wf_matrix X → (j < ncols X)%nat → np_std (column j X) ≠ 0 →
  column j (standardize X) = map (fun x => x / np_std (column j X)) (column j X)
  ∧ np_std (column j (standardize X)) = 1
  ∧ vmean (column j (standardize X))
    = vmean (column j X) / np_std (column j X)
  ∧ (∀ df predictors labels (X' Y' : matrix R),
       regression_inputs df predictors labels = Ok (X', Y') →
       ∃ X0 Y0,
         df_values df predictors = Ok X0 ∧ df_values df labels = Ok Y0
         ∧ wf_matrix X0 ∧ wf_matrix Y0
         ∧ X' = standardize X0 ∧ Y' = standardize Y0)
  ∧ (∀ df predictors labels (X' counts : matrix R) total_counts_used,
       location_inputs df predictors labels
       = Ok (X', counts, total_counts_used) →
       ∃ X0, df_values df predictors = Ok X0 ∧ wf_matrix X0
             ∧ X' = standardize X0).
Proof.
  intros Hwf Hj Hs.
  split; [exact (column_standardize X j Hwf Hj)|].
  destruct (standardize_column X j Hwf Hj Hs) as [Hstd Hmean].
  split; [exact Hstd|]. split; [exact Hmean|].
  split; [apply regression_inputs_inv|apply location_inputs_inv].
Qed.

End Standardization.

(** ** The symbolic library satisfies the laws, and runs *)

#[global] Instance sym_torch_laws : TorchLaws sym.
Proof.
  split.
  - intros n k g. unfold mshape, nrows, wf_matrix. simpl.
    rewrite length_replicate. split; [reflexivity|].
    apply Forall_replicate. apply length_replicate.
  - intros M g Hwf. unfold mshape, nrows, wf_matrix in *. simpl.
    rewrite length_map. split; [reflexivity|].
    apply Forall_map. eapply Forall_impl; [exact Hwf|].
    intros r Hr. simpl. by rewrite length_map.
  - intros lr f p h p' h' Hstep. simpl in Hstep.
    destruct (f p) as [v|e]; [|discriminate]. simpl in Hstep.
    inversion Hstep; subst. unfold params_shape, sym_update. simpl.
    f_equal; [f_equal|].
    + rewrite map_map. apply map_ext. intros M.
      unfold mshape, nrows. simpl. by rewrite length_map.
    + rewrite map_map. apply map_ext. intros b. by rewrite length_map.
    + destruct (scale p) as [sc|]; simpl; [|reflexivity].
      by rewrite length_map.
Qed.

(** Two layers: the hyperbolic tangent is on the first one only. *)
Example get_output_two_layers :
  get_output (Matrix 1 [[SLit 2]]) Y_sym [[SLit 5]; [SLit 7]]
    [Matrix 1 [[SLit 3]]; Matrix 1 [[SLit 4]]]
  = Ok (Matrix 1
          [[SApp2 "add"
              (SApp2 "add" (SLit 0)
                 (SApp2 "mul"
                    (SApp1 "tanh"
                       (SApp2 "add"
                          (SApp2 "add" (SLit 0) (SApp2 "mul" (SLit 2) (SLit 3)))
                          (SLit 5)))
                    (SLit 4)))
              (SLit 7)]]).
Proof. reflexivity. Qed.

(** No layer: the last intercept plus [Y * 0]; without an intercept, an
    index error. *)
Example get_output_no_layer :
  get_output X_sym (Matrix 1 [[SLit 9]]) [[SLit 5]; [SLit 7]] []
  = Ok (Matrix 1 [[SApp2 "add" (SLit 7) (SApp2 "mul" (SLit 9) (SLit 0))]])
  ∧ get_output X_sym Y_sym [] [] = Raise IndexError.
Proof. split; reflexivity. Qed.

(** A normal fit given trial counts. *)
Example normal_fit_with_counts :
  (get_fitted_model X_sym Y_sym (Some counts_sym) EvaluateNormal false true
     None None world_sym).1
  = Raise AssertionError.
Proof. reflexivity. Qed.

Lemma get_output_affine_layers_witness :
  [W_sym] ≠ [] ∧ length [b_sym] = length [W_sym]
  ∧ get_output X_sym Y_sym [b_sym] [W_sym]
    = affine_layers X_sym (zip [W_sym] [b_sym]).
Proof.
  split; [discriminate|]. split; [reflexivity|].
  apply (get_output_affine_layers X_sym Y_sym [b_sym] [W_sym]);
    [discriminate|reflexivity].
Defined.

Lemma evaluate_binomial_output_dim_witness :
  (∃ logits,
     get_output X_sym Y2_sym [[SLit 0; SLit 0]] [] = Ok logits
     ∧ ncols logits ≠ 1
     ∧ evaluate_binomial X_sym Y2_sym (Some counts_sym) None
         [[SLit 0; SLit 0]] [] = Raise AssertionError)
  ∧ (∃ logits log_probs,
       get_output X_sym Y_sym [b_sym] [W_sym] = Ok logits
       ∧ ncols logits = 1
       ∧ evaluate_binomial X_sym Y_sym (Some counts_sym) None [b_sym] [W_sym]
         = Ok (Vec log_probs, Vec (map ssigmoid (column 0 logits)))).
Proof.
  split.
  - eexists. split; [reflexivity|]. split; [discriminate|].
    apply (proj1 (evaluate_binomial_output_dim X_sym Y2_sym (Some counts_sym)
                    None [[SLit 0; SLit 0]] [] _ eq_refl)).
    discriminate.
  - eexists _, _. split; [reflexivity|]. split; [reflexivity|].
    eapply (proj2 (evaluate_binomial_output_dim X_sym Y_sym (Some counts_sym)
                     None [b_sym] [W_sym] _ eq_refl));
      reflexivity.
Defined.

Lemma allocate_by_variant_witness :
  ∃ biases weights w',
    allocate X_sym Y_sym false true 3 world_sym = (Ok (biases, weights), w')
    ∧ map mshape weights = [(2, 3); (3, 1)]
    ∧ biases = [replicate 3 szero; replicate 1 szero].
Proof.
  destruct (allocate_by_variant X_sym Y_sym false true 3 world_sym)
    as (biases & weights & w' & Halloc & (g1 & g2 & -> & H1 & H2 & ->) & _).
  eexists _, _, w'. split; [exact Halloc|]. split; [|reflexivity].
  cbn [map]. rewrite H1, H2. reflexivity.
Defined.

Lemma fit_runs_num_steps_witness :
  (0 ≤ default default_num_steps (Some 3%Z))%Z
  ∧ ∃ f w',
      get_fitted_model X_sym Y_sym None EvaluateNormal false false
        (Some 3%Z) None world_sym = (Ok f, w')
      ∧ length (steps w') = 3.
Proof.
  split; [simpl; lia|].
  destruct (get_fitted_model X_sym Y_sym None EvaluateNormal false false
              (Some 3%Z) None world_sym) as [[f|e] w'] eqn:Hfit;
    [|vm_compute in Hfit; discriminate].
  exists f, w'. split; [reflexivity|].
  destruct (fit_runs_num_steps X_sym Y_sym None EvaluateNormal false false
              (Some 3%Z) None world_sym w' (Ok f)) as [_ (calls & Hc & _ & _ & Hok)];
    [simpl; lia|exact Hfit|].
  destruct (Hok f eq_refl) as [Hlen _].
  rewrite Hc. simpl in *. lia.
Defined.

Lemma fitted_intercepts_nonempty_witness :
  ∃ f w' b,
    get_fitted_model X_sym Y_sym (Some counts_sym) EvaluateBinomial true false
      None None world_sym = (Ok f, w')
    ∧ getitem_last (intercepts (partial_params f)) = Ok b
    ∧ length b = 1.
Proof.
  destruct (get_fitted_model X_sym Y_sym (Some counts_sym) EvaluateBinomial
              true false None None world_sym) as [[f|e] w'] eqn:Hfit;
    [|vm_compute in Hfit; discriminate].
  destruct (fitted_intercepts_nonempty X_sym Y_sym (Some counts_sym)
              EvaluateBinomial true false None None world_sym w' f Hfit)
    as (_ & (b & Hb & Hlen) & _).
  exists f, w', b. split; [reflexivity|]. split; [exact Hb|exact Hlen].
Defined.

Lemma regression_results_mse_r2_witness :
  ∃ results w',
    get_regression_likelihoods [] df_sym ["x"] (Some ["y"]) None world_sym
    = (Ok results, w')
    ∧ is_Some (results !! "fitted_linear_mse")
    ∧ is_Some (results !! "fitted_nonlinear_r2")
    ∧ results !! "rho_mcf_linear" = None.
Proof.
  destruct (get_regression_likelihoods [] df_sym ["x"] (Some ["y"]) None
              world_sym) as [[results|e] w'] eqn:Hrun;
    [|vm_compute in Hrun; discriminate].
  destruct (regression_results_mse_r2 [] [] df_sym ["x"] (Some ["y"]) None
              world_sym w' results Hrun) as ((X & Y & _ & Hfits) & Hrho & _).
  exists results, w'. split; [reflexivity|].
  destruct (Hfits false) as (? & ? & ? & mse & ? & ? & ? & _ & _ & _ & _ & Hmse & _).
  destruct (Hfits true) as (? & ? & ? & ? & r2 & ? & ? & _ & _ & _ & _ & _ & Hr2).
  split; [by exists (Float mse)|]. split; [by exists (Float r2)|exact Hrho].
Defined.

Lemma standardization_scales_columns_witness :
  wf_matrix column_0_4 ∧ (0 < ncols column_0_4)%nat
  ∧ np_std (column 0 column_0_4) ≠ 0%R
  ∧ np_std (column 0 (standardize column_0_4)) = 1%R
  ∧ vmean (column 0 (standardize column_0_4)) = (2 / 2)%R.
Proof.
  assert (Hs : np_std (column 0 column_0_4) ≠ 0%R)
    by (rewrite np_std_column_0_4; lra).
  assert (Hj : (0 < ncols column_0_4)%nat) by (simpl; lia).
  destruct (standardization_scales_columns column_0_4 0 wf_column_0_4 Hj Hs)
    as (_ & Hstd & Hmean & _).
  split; [exact wf_column_0_4|]. split; [exact Hj|]. split; [exact Hs|].
  split; [exact Hstd|].
  rewrite Hmean, np_std_column_0_4, vmean_column_0_4. reflexivity.
Defined.

(** * Further properties *)

(** ** Shapes through the output transform *)

Section OutputShapes.
Context {T : Type} `{Scalar T}.

Lemma mm_shape (A B M : matrix T) :
  mm A B = Ok M → nrows M = nrows A ∧ ncols M = ncols B ∧ wf_matrix M.
Proof.
  unfold mm. case_decide; [|discriminate]. intros [= <-].
  unfold nrows, wf_matrix. cbn [rows ncols]. rewrite length_map.
  split; [done|]. split; [done|].
  apply Forall_map, Forall_forall. intros r _. cbn beta.
  by rewrite length_map, length_seq.
Qed.

Lemma broadcast_mv_rows (f : T → T → T) (M M' : matrix T) (b : list T) :
  broadcast_mv f M b = Ok M' → nrows M' = nrows M.
Proof.
  unfold broadcast_mv, nrows.
  repeat case_decide; intros [= <-]; cbn [rows]; by rewrite length_map.
Qed.

Lemma broadcast_mv_wf (f : T → T → T) (M M' : matrix T) (b : list T) :
  wf_matrix M → broadcast_mv f M b = Ok M' → wf_matrix M'.
Proof.
  unfold broadcast_mv, wf_matrix. intros Hwf.
  repeat case_decide; intros [= <-]; cbn [rows ncols];
    apply Forall_map; (eapply Forall_impl; [exact Hwf|]); intros r Hr;
    cbn beta in *.
  - rewrite length_zip_with. lia.
  - by rewrite length_map.
  - by rewrite length_map.
Qed.

Lemma mmap_rows (f : T → T) (M : matrix T) : nrows (mmap f M) = nrows M.
Proof. unfold nrows, mmap. cbn [rows]. by rewrite length_map. Qed.

Lemma mmap_wf (f : T → T) (M : matrix T) : wf_matrix M → wf_matrix (mmap f M).
Proof.
  unfold wf_matrix, mmap. cbn [rows ncols]. intros Hwf.
  apply Forall_map. eapply Forall_impl; [exact Hwf|].
  intros r Hr. cbn beta. by rewrite length_map.
Qed.

(** A turn of the loop that returns: both lists had an [i]-th element, the
    rows are kept, the result is well formed. *)
Lemma layer_Ok (intercepts : list (list T)) (coeffs : list (matrix T))
  (X X' : matrix T) (i : nat) :
  layer intercepts coeffs X i = Ok X' →
  i < length coeffs ∧ i < length intercepts
  ∧ nrows X' = nrows X ∧ wf_matrix X'.
Proof.
  unfold layer, getitem. intros Hl.
  destruct (coeffs !! i) as [W|] eqn:HW; [|discriminate].
  rewrite result_bind_Ok in Hl.
  destruct (mm X W) as [XW|e] eqn:Hmm; [|discriminate].
  rewrite result_bind_Ok in Hl.
  destruct (intercepts !! i) as [b|] eqn:Hb; [|discriminate].
  rewrite result_bind_Ok in Hl.
  destruct (broadcast_mv sadd XW b) as [X1|e] eqn:Hbc; [|discriminate].
  rewrite result_bind_Ok in Hl.
  apply lookup_lt_Some in HW, Hb.
  apply mm_shape in Hmm as (Hr & _ & Hwf).
  pose proof (broadcast_mv_rows _ _ _ _ Hbc) as Hr1.
  pose proof (broadcast_mv_wf _ _ _ _ Hwf Hbc) as Hwf1.
  split; [done|]. split; [done|].
  case_decide; inversion Hl; subst.
  - rewrite mmap_rows. split; [congruence|by apply mmap_wf].
  - split; [congruence|done].
Qed.

(** The loop from turn [k], where it returns. *)
Lemma for_range_layer_Ok (intercepts : list (list T))
  (coeffs : list (matrix T)) (n : nat) :
  ∀ (k : nat) (X X' : matrix T),
    for_range (seq k n) (layer intercepts coeffs) X = Ok X' →
    nrows X' = nrows X
    ∧ (n = 0 ∧ X' = X ∨ n ≠ 0 ∧ k + n ≤ length intercepts ∧ wf_matrix X').
Proof.
  induction n as [|n IH]; intros k X X' Hloop.
  - inversion Hloop; subst. split; [done|]. by left.
  - cbn [seq for_range] in Hloop.
    destruct (layer intercepts coeffs X k) as [X1|e] eqn:Hl; [|discriminate].
    rewrite result_bind_Ok in Hloop.
    apply layer_Ok in Hl as (_ & Hk & Hr & Hwf).
    apply IH in Hloop as [Hr' Hrest]. split; [congruence|]. right.
    split; [done|].
    destruct Hrest as [[-> ->]|(_ & Hle & Hwf')]; (split; [lia|done]).
Qed.

(** Where [get_output] returns: the rows of the result, and the intercepts
    there must have been. *)
Lemma get_output_Ok (X Y L : matrix T) (intercepts : list (list T))
  (coeffs : list (matrix T)) :
  get_output X Y intercepts coeffs = Ok L →
  nrows L = (if coeffs is [] then nrows Y else nrows X)
  ∧ (coeffs ≠ [] ∨ wf_matrix Y → wf_matrix L)
  ∧ length coeffs ≤ length intercepts ∧ intercepts ≠ [].
Proof.
  unfold get_output. intros Hout.
  destruct (for_range _ _ X) as [X'|e] eqn:Hloop; [|discriminate].
  rewrite result_bind_Ok in Hout.
  apply for_range_layer_Ok in Hloop as [Hr Hcases].
  destruct coeffs as [|W coeffs].
  - rewrite decide_True in Hout by done.
    destruct (getitem_last intercepts) as [b|e] eqn:Hb; [|discriminate].
    rewrite result_bind_Ok in Hout.
    pose proof (broadcast_mv_rows _ _ _ _ Hout) as Hrows.
    rewrite mmap_rows in Hrows. split; [done|]. split.
    + intros [[]|Hwf]; [done|].
      eapply broadcast_mv_wf; [|exact Hout]. by apply mmap_wf.
    + split; [simpl; lia|]. intros ->. discriminate.
  - rewrite decide_False in Hout by done. inversion Hout; subst.
    destruct Hcases as [[[=] _]|(_ & Hle & Hwf)].
    split; [done|]. split; [done|]. split; [simpl in *; lia|].
    intros ->. simpl in Hle. lia.
Qed.

(** X1: where [get_output] returns, the result has one row per row of [X]
    (of [Y], for the null model) and every row has [ncols] entries (for the
    null model, provided [Y] is well formed). *)
Theorem get_output_rows (X Y L : matrix T) (intercepts : list (list T))
  (coeffs : list (matrix T)) :
  get_output X Y intercepts coeffs = Ok L →
  nrows L = (if coeffs is [] then nrows Y else nrows X)
  ∧ (coeffs ≠ [] ∨ wf_matrix Y → wf_matrix L).
Proof.
  intros Hout. apply get_output_Ok in Hout as (Hr & Hwf & _). done.
Qed.

(** X2: [get_output] returns only if there is a bias vector for every
    weight matrix and, for the null model, at least one intercept. *)
Theorem get_output_needs_intercepts (X Y L : matrix T)
  (intercepts : list (list T)) (coeffs : list (matrix T)) :
  get_output X Y intercepts coeffs = Ok L →
  length coeffs ≤ length intercepts ∧ intercepts ≠ [].
Proof.
  intros Hout. apply get_output_Ok in Hout as (_ & _ & Hlen & Hne). done.
Qed.

(** The transform of a model with weights is the chain of its layers. *)
Lemma get_output_layers (X Y : matrix T) (intercepts : list (list T))
  (coeffs : list (matrix T)) :
  coeffs ≠ [] → length coeffs ≤ length intercepts →
  get_output X Y intercepts coeffs = affine_layers X (zip coeffs intercepts).
Proof.
  intros Hne Hlen. unfold get_output.
  rewrite (for_range_affine_layers intercepts coeffs coeffs 0 X); [|done|done].
  rewrite drop_0.
  destruct (affine_layers X (zip coeffs intercepts)) as [X'|e]; [|reflexivity].
  rewrite result_bind_Ok, decide_False; [reflexivity|].
  destruct coeffs; [done|discriminate].
Qed.

Lemma zip_app_surplus {A B} (l : list A) (k extra : list B) :
  length l ≤ length k → zip l (k ++ extra) = zip l k.
Proof.
  revert k. induction l as [|x l IH]; intros [|y k] Hlen; simpl in *;
    try reflexivity; try lia.
  f_equal. apply IH. lia.
Qed.

(** X3: with at least one weight matrix, intercepts beyond the number of
    weight matrices are never read; with none, it is the last intercept
    that is read, whatever precedes it. *)
Theorem get_output_surplus_intercepts (X Y : matrix T)
  (intercepts extra : list (list T)) (coeffs : list (matrix T)) :
  length coeffs ≤ length intercepts →
  (coeffs ≠ [] →
   get_output X Y (intercepts ++ extra) coeffs
   = get_output X Y intercepts coeffs)
  ∧ (∀ b, get_output X Y (intercepts ++ [b]) [] = get_output X Y [b] []).
Proof.
  intros Hlen. split.
  - intros Hne. rewrite !get_output_layers; try done.
    + by rewrite zip_app_surplus.
    + rewrite length_app. lia.
  - intros b. rewrite !get_output_null_eq. unfold getitem_last.
    by rewrite last_snoc.
Qed.

(** X4: with at least one weight matrix [get_output] does not read [Y]. *)
Theorem get_output_ignores_Y (X Y1 Y2 : matrix T)
  (intercepts : list (list T)) (coeffs : list (matrix T)) :
  coeffs ≠ [] →
  get_output X Y1 intercepts coeffs = get_output X Y2 intercepts coeffs.
Proof.
  intros Hne. unfold get_output.
  destruct (for_range _ _ X) as [X'|e]; [|reflexivity].
  rewrite !result_bind_Ok, !decide_False; [reflexivity|..];
    destruct coeffs; done.
Qed.

End OutputShapes.

(** ** The evaluators, where they return *)

Section EvaluatorReturns.
Context {T : Type} `{Scalar T} `{Torch T}.

(** X5: the binomial evaluator returns only on an output of one column and
    a [Y] with at least one column; its point estimate then holds one
    probability per observation, the sigmoid of the logit. *)
Theorem evaluate_binomial_returns (X Y : matrix T)
  (total_counts scale : option (list T)) (intercepts : list (list T))
  (coeffs : list (matrix T)) (log_probs probs : tensor T) :
  evaluate_binomial X Y total_counts scale intercepts coeffs
  = Ok (log_probs, probs) →
  ∃ logits,
    get_output X Y intercepts coeffs = Ok logits
    ∧ ncols logits = 1 ∧ ncols Y ≠ 0
    ∧ probs = Vec (map ssigmoid (column 0 logits))
    ∧ numel probs = (if coeffs is [] then nrows Y else nrows X).
Proof.
  unfold evaluate_binomial. intros Hev.
  destruct (get_output X Y intercepts coeffs) as [logits|e] eqn:Hout;
    [|discriminate].
  rewrite result_bind_Ok in Hev. case_decide as Hcols; [|discriminate].
  rewrite (first_column_Ok logits) in Hev by (rewrite Hcols; discriminate).
  rewrite result_bind_Ok in Hev.
  destruct (binomial_new total_counts (column 0 logits)) as [d|e];
    [|discriminate].
  rewrite result_bind_Ok in Hev. unfold first_column in Hev.
  case_decide as HY; [discriminate|]. rewrite result_bind_Ok in Hev.
  destruct (binomial_log_prob d (column 0 Y)) as [lp|e]; [|discriminate].
  inversion Hev; subst. exists logits.
  split; [done|]. split; [done|]. split; [done|]. split; [done|].
  cbn [numel]. unfold column. rewrite !length_map.
  by destruct (get_output_Ok _ _ _ _ _ Hout) as [Hrows _].
Qed.

End EvaluatorReturns.

Section NormalScale.
Context `{Torch R}.
Local Open Scope R_scope.

Lemma softplus_eps_bound (x : R) :
  1 / 1000 < sadd (ssoftplus x) (slit (1 # 1000)).
Proof.
  cbn [sadd ssoftplus slit R_scalar].
  assert (Heps : Q2R (1 # 1000) = 1 / 1000) by (unfold Q2R; simpl; lra).
  rewrite Heps.
  assert (0 < ln (1 + exp x)); [|lra].
  rewrite <- ln_1. apply ln_increasing; [lra|].
  pose proof (exp_pos x). lra.
Qed.

(** X6: on the real numbers, whenever the normal evaluator returns, the
    distribution it built has the standard deviation softplus(scale) + eps,
    which is above [eps] = 0.001 in every component, whatever the scale
    parameter; the evaluator returns the log-density of [Y] under that
    distribution, and the means. *)
Theorem evaluate_normal_scale_positive (X Y : matrix R)
  (total_counts scale : option (list R)) (intercepts : list (list R))
  (coeffs : list (matrix R)) (log_probs point : tensor R) :
  evaluate_normal X Y total_counts scale intercepts coeffs
  = Ok (log_probs, point) →
  ∃ means s sd d lp,
    get_output X Y intercepts coeffs = Ok means
    ∧ point = Mat means
    ∧ scale = Some s
    ∧ sd = map (fun x => ln (1 + exp x) + 1 / 1000) s
    ∧ normal_new means sd = Ok d
    ∧ normal_log_prob d Y = Ok lp ∧ log_probs = Mat lp
    ∧ Forall (fun x => 1 / 1000 < x) sd.
Proof.
  unfold evaluate_normal, evaluate_normal_eps. intros Hev.
  destruct (get_output X Y intercepts coeffs) as [means|e]; [|discriminate].
  rewrite result_bind_Ok in Hev.
  destruct scale as [s|]; [|discriminate]. rewrite result_bind_Ok in Hev.
  assert (Hsd : map (fun x => sadd (ssoftplus x) (slit (1 # 1000))) s
                = map (fun x => ln (1 + exp x) + 1 / 1000) s).
  { apply map_ext. intros x. cbn [sadd ssoftplus slit R_scalar].
    unfold Q2R. simpl. lra. }
  rewrite Hsd in Hev.
  destruct (normal_new means _) as [d|e] eqn:Hd; [|discriminate].
  rewrite result_bind_Ok in Hev.
  destruct (normal_log_prob d Y) as [lp|e] eqn:Hlp; [|discriminate].
  inversion Hev; subst. eexists means, s, _, d, lp.
  split; [done|]. split; [done|]. split; [done|]. split; [reflexivity|].
  split; [exact Hd|]. split; [exact Hlp|]. split; [done|].
  rewrite <- Hsd. apply Forall_map, Forall_forall. intros x _.
  apply softplus_eps_bound.
Qed.

End NormalScale.

(** ** The returned evaluator *)

Section FittedEvaluator.
Context {T : Type} `{Scalar T} `{Torch T}.

Lemma mm_Ok (A B : matrix T) :
  ncols A = nrows B →
  ∃ M, mm A B = Ok M ∧ nrows M = nrows A ∧ ncols M = ncols B.
Proof.
  intros Hdim. unfold mm. rewrite decide_True by done.
  eexists. split; [reflexivity|]. unfold nrows. cbn [rows ncols].
  by rewrite length_map.
Qed.

Lemma broadcast_mv_Ok (f : T → T → T) (M : matrix T) (b : list T) :
  length b = ncols M →
  ∃ M', broadcast_mv f M b = Ok M' ∧ nrows M' = nrows M ∧ ncols M' = ncols M.
Proof.
  intros Hdim. unfold broadcast_mv. rewrite decide_True by done.
  eexists. split; [reflexivity|]. unfold nrows. cbn [rows ncols].
  by rewrite length_map.
Qed.

(** One affine layer on matching shapes. *)
Lemma affine_Ok (X W : matrix T) (b : list T) (k : nat) :
  mshape W = (ncols X, k) → length b = k →
  ∃ X', mm X W ≫= (fun XW => broadcast_mv sadd XW b) = Ok X'
        ∧ nrows X' = nrows X ∧ ncols X' = k.
Proof.
  unfold mshape. intros [= Hr Hc] Hb.
  destruct (mm_Ok X W) as (XW & -> & Hr1 & Hc1); [done|].
  rewrite result_bind_Ok.
  destruct (broadcast_mv_Ok sadd XW b) as (X' & -> & Hr2 & Hc2); [congruence|].
  exists X'. split; [done|]. split; congruence.
Qed.

(** The parameters of a fit that returns have the shapes of its variant. *)
Lemma fit_params_shape `{!TorchLaws T} (X Y : matrix T)
  (total_counts : option (list T)) (fn : evaluation_fn)
  (null nonlinear : bool) (num_steps : option Z) (hidden_size : option nat)
  (w w' : world) (f : partial) :
  get_fitted_model X Y total_counts fn null nonlinear num_steps hidden_size w
  = (Ok f, w') →
  partial_fn f = fn
  ∧ (fn = EvaluateNormal → total_counts = None)
  ∧ params_shape (partial_params f)
    = fitted_shape (ncols X) (ncols Y)
        (default default_hidden_size hidden_size) fn null nonlinear.
Proof.
  intros Hfit.
  apply get_fitted_model_inv in Hfit
    as (biases & weights & w1 & st' & Halloc & Htc & Hrun & ->).
  apply repeat_optimizer_step in Hrun as (_ & calls & _ & _ & _ & Hok).
  destruct (Hok _ eq_refl) as [_ Hsteps].
  apply run_steps_shape in Hsteps as [Hshape _].
  split; [done|]. split; [done|].
  cbn [partial_params]. rewrite Hshape. clear Hshape Hok.
  rewrite allocate_eq in Halloc. unfold params_shape, fitted_shape.
  cbn [coeffs intercepts scale fst].
  assert (Hsc : (length <$> (if decide (fn = EvaluateNormal)
                             then Some (replicate 1 szero) else None))
                = (if decide (fn = EvaluateNormal) then Some 1 else None)
                :> option nat) by (by case_decide).
  rewrite Hsc. unfold _get_intercept in Halloc.
  destruct null; [|destruct nonlinear]; inversion Halloc; subst; cbn [map].
  - by rewrite length_replicate.
  - rewrite !length_replicate.
    destruct (drawn_weight_shape (ncols X)
                (default default_hidden_size hidden_size) (rng w)) as [-> _].
    destruct (drawn_weight_shape (default default_hidden_size hidden_size)
                (ncols Y)
                (drawn_rng (ncols X, default default_hidden_size hidden_size)
                   (rng w))) as [-> _].
    done.
  - rewrite !length_replicate.
    destruct (drawn_weight_shape (ncols X) (ncols Y) (rng w)) as [-> _].
    done.
Qed.

(** The transform on parameters of the shapes of a variant. *)
Lemma get_output_fitted_shape (p : params T) (D K hidden_size : nat)
  (fn : evaluation_fn) (null nonlinear : bool) (X Y : matrix T) :
  params_shape p = fitted_shape D K hidden_size fn null nonlinear →
  ncols X = D → ncols Y = K →
  ∃ L, get_output X Y (intercepts p) (coeffs p) = Ok L
       ∧ mshape L = (if null then nrows Y else nrows X, K).
Proof.
  unfold params_shape, fitted_shape. destruct p as [ws bs sc].
  cbn [coeffs intercepts scale]. intros [= Hws Hbs _] HD HK.
  destruct null; [|destruct nonlinear].
  - destruct ws as [|? ?]; [|discriminate].
    destruct bs as [|b [|? ?]]; try discriminate. inversion Hbs as [Hb].
    rewrite get_output_null_eq. cbn [getitem_last last]. rewrite result_bind_Ok.
    destruct (broadcast_mv_Ok (fun y0 b0 => sadd b0 y0)
                (mmap (fun y => smul y szero) Y) b) as (L & -> & Hr & Hc);
      [cbn [mmap ncols]; congruence|].
    exists L. split; [done|]. unfold mshape. rewrite Hr, Hc, mmap_rows.
    cbn [mmap ncols]. congruence.
  - destruct ws as [|W1 [|W2 [|? ?]]]; try discriminate.
    destruct bs as [|b1 [|b2 [|? ?]]]; try discriminate.
    inversion Hws as [[HW1 HW2]]. inversion Hbs as [[Hb1 Hb2]].
    rewrite get_output_layers by (simpl; done || lia).
    cbn [zip zip_with affine_layers].
    destruct (mm_Ok X W1) as (XW & -> & Hr1 & Hc1);
      [unfold mshape in HW1; congruence|].
    rewrite result_bind_Ok.
    destruct (broadcast_mv_Ok sadd XW b1) as (X1 & -> & Hr2 & Hc2);
      [unfold mshape in HW1; congruence|].
    rewrite result_bind_Ok.
    destruct (affine_Ok (mmap stanh X1) W2 b2 K) as (L & HL & Hr3 & Hc3);
      [cbn [mmap ncols]; unfold mshape in *; congruence|done|].
    destruct (mm (mmap stanh X1) W2) as [XW2|e]; [|discriminate].
    rewrite result_bind_Ok in HL |- *. rewrite HL.
    exists L. split; [done|]. unfold mshape. rewrite Hr3, Hc3, mmap_rows.
    congruence.
  - destruct ws as [|W [|? ?]]; try discriminate.
    destruct bs as [|b [|? ?]]; try discriminate.
    inversion Hws as [HW]. inversion Hbs as [Hb].
    rewrite get_output_layers by (simpl; done || lia).
    cbn [zip zip_with affine_layers].
    destruct (affine_Ok X W b K) as (L & HL & Hr & Hc);
      [unfold mshape in *; congruence|congruence|].
    destruct (mm X W) as [XW|e]; [|discriminate].
    rewrite result_bind_Ok in HL |- *.
    destruct (broadcast_mv sadd XW b) as [L'|e]; [|discriminate].
    inversion HL; subst. exists L. split; [done|]. unfold mshape. congruence.
Qed.

(** X7: the evaluator a fit returns can be applied to the data of the fit
    and to any data with as many predictor and response columns: its
    output transform does not raise, and gives one row per observation and
    one column per response column. *)
Theorem fitted_output_shape `{!TorchLaws T} (X Y X' Y' : matrix T)
  (total_counts : option (list T)) (fn : evaluation_fn)
  (null nonlinear : bool) (num_steps : option Z) (hidden_size : option nat)
  (w w' : world) (f : partial) :
  get_fitted_model X Y total_counts fn null nonlinear num_steps hidden_size w
  = (Ok f, w') →
  ncols X' = ncols X → ncols Y' = ncols Y →
  ∃ L, get_output X' Y' (intercepts (partial_params f))
         (coeffs (partial_params f)) = Ok L
       ∧ mshape L = (if null then nrows Y' else nrows X', ncols Y).
Proof.
  intros Hfit HX HY. apply fit_params_shape in Hfit as (_ & _ & Hshape).
  by eapply get_output_fitted_shape.
Qed.

(** X8: the returned evaluator is bound to the evaluation function of the
    fit, and holds a scale parameter, of one element, exactly when that
    function is the normal evaluator. *)
Theorem fitted_scale_iff_normal `{!TorchLaws T} (X Y : matrix T)
  (total_counts : option (list T)) (fn : evaluation_fn)
  (null nonlinear : bool) (num_steps : option Z) (hidden_size : option nat)
  (w w' : world) (f : partial) :
  get_fitted_model X Y total_counts fn null nonlinear num_steps hidden_size w
  = (Ok f, w') →
  partial_fn f = fn
  ∧ match scale (partial_params f) with
    | Some s => fn = EvaluateNormal ∧ length s = 1 ∧ total_counts = None
    | None => fn ≠ EvaluateNormal
    end.
Proof.
  intros Hfit. apply fit_params_shape in Hfit as (Hfn & Htc & Hshape).
  split; [done|]. unfold params_shape, fitted_shape in Hshape.
  apply (f_equal snd) in Hshape. cbn [snd] in Hshape.
  destruct (scale (partial_params f)) as [s|]; case_decide;
    try discriminate; [|done].
  inversion Hshape. auto.
Qed.

(** X9: a fit draws from the random generator for its weight matrices
    only, whether it returns or raises: the null fit leaves the generator
    as it was, the linear fit draws one matrix, the nonlinear fit two, and
    the optimizer steps draw nothing. *)
Theorem fit_rng (X Y : matrix T) (total_counts : option (list T))
  (fn : evaluation_fn) (null nonlinear : bool) (num_steps : option Z)
  (hidden_size : option nat) (w w' : world) (r : result partial) :
  get_fitted_model X Y total_counts fn null nonlinear num_steps hidden_size w
  = (r, w') →
  rng w' =
  if null then rng w
  else if nonlinear
       then drawn_rng (default default_hidden_size hidden_size, ncols Y)
              (drawn_rng (ncols X, default default_hidden_size hidden_size)
                 (rng w))
       else drawn_rng (ncols X, ncols Y) (rng w).
Proof.
  unfold get_fitted_model. rewrite M_bind_eq, allocate_eq. intros Hfit.
  set (w1 := if null then _ else _) in Hfit.
  assert (Hrng : rng w1.2 =
    if null then rng w
    else if nonlinear
         then drawn_rng (default default_hidden_size hidden_size, ncols Y)
                (drawn_rng (ncols X, default default_hidden_size hidden_size)
                   (rng w))
         else drawn_rng (ncols X, ncols Y) (rng w)).
  { subst w1. by destruct null, nonlinear. }
  assert (Hok : ∃ bs ws, w1 = (Ok (bs, ws), w1.2)).
  { subst w1. destruct null, nonlinear; eauto. }
  destruct Hok as (bs & ws & Hw1). rewrite Hw1 in Hfit.
  rewrite <- Hrng. clear Hrng Hw1. rewrite M_bind_eq in Hfit.
  assert (Hsteps : ∀ sc r1 w2,
    repeat_M (Z.to_nat (default default_num_steps num_steps))
      (optimizer_step (slit (1 # 10)) (closure X Y total_counts fn))
      (Params ws bs sc, lbfgs_new) w1.2 = (r1, w2) → rng w2 = rng w1.2).
  { intros sc r1 w2 Hrep. by apply repeat_optimizer_step in Hrep as [? _]. }
  case_decide.
  - destruct total_counts; [by inversion Hfit|].
    cbn [mret M_ret] in Hfit. rewrite M_bind_eq in Hfit.
    destruct (repeat_M _ _ _ _) as [[[p h]|e] w2] eqn:Hrep;
      apply Hsteps in Hrep; inversion Hfit; by subst.
  - cbn [mret M_ret] in Hfit. rewrite M_bind_eq in Hfit.
    destruct (repeat_M _ _ _ _) as [[[p h]|e] w2] eqn:Hrep;
      apply Hsteps in Hrep; inversion Hfit; by subst.
Qed.

End FittedEvaluator.

(** ** The orchestrators, as a whole *)

(** A lookup at a literal key in a mapping built by insertions. *)
Ltac read_key :=
  repeat (rewrite lookup_insert_ne by discriminate);
  first [apply lookup_insert_eq | apply lookup_empty].

Section OrchestratorRuns.
Context {T : Type} `{Scalar T} `{Torch T}.
Variables location_labels supplementary_labels : list string.

(** A fit with the default budget that returns has made ten optimizer
    steps. *)
Lemma fit_default_steps (X Y : matrix T) (total_counts : option (list T))
  (fn : evaluation_fn) (null nonlinear : bool) (hidden_size : option nat)
  (w w' : world) (f : partial) :
  get_fitted_model X Y total_counts fn null nonlinear None hidden_size w
  = (Ok f, w') →
  ∃ calls, steps w' = steps w ++ calls ∧ length calls = 10.
Proof.
  intros Hfit.
  apply get_fitted_model_inv in Hfit
    as (biases & weights & w1 & st' & Halloc & _ & Hrun & _).
  destruct (allocate_steps X Y null nonlinear
              (default default_hidden_size hidden_size) w)
    as (bs & ws & w1' & Halloc' & Hsteps).
  rewrite Halloc in Halloc'. inversion Halloc'; subst bs ws w1'.
  apply repeat_optimizer_step in Hrun as (_ & calls & Hcalls & _ & _ & Hok).
  destruct (Hok _ eq_refl) as [Hlen _].
  exists calls. split; [congruence|exact Hlen].
Qed.

(** A normal fit given counts raises before any step. *)
Lemma normal_fit_counts (X Y : matrix T) (total_counts : list T)
  (null nonlinear : bool) (num_steps : option Z) (hidden_size : option nat)
  (w : world) :
  ∃ w',
    get_fitted_model X Y (Some total_counts) EvaluateNormal null nonlinear
      num_steps hidden_size w = (Raise AssertionError, w')
    ∧ steps w' = steps w.
Proof.
  unfold get_fitted_model. rewrite M_bind_eq.
  destruct (allocate_steps X Y null nonlinear
              (default default_hidden_size hidden_size) w)
    as (bs & ws & w1 & -> & Hsteps).
  rewrite M_bind_eq. exists w1. split; [reflexivity|exact Hsteps].
Qed.

(** The continuous orchestrator, where it returns: its inputs, its three
    fits in order, and the mapping it builds. *)
Lemma regression_run (sup_df : dataframe T) (predictors : list string)
  (labels : option (list string)) (fn : option evaluation_fn) (w w' : world)
  (results : gmap string (value T)) :
  get_regression_likelihoods supplementary_labels sup_df predictors labels fn w
  = (Ok results, w') →
  ∃ X Y f1 f2 f0 w1 w2 ll1 ll2 ll0 Yh1 Yh2 p0 mse1 mse2 r21 r22,
    regression_inputs sup_df predictors (default supplementary_labels labels)
    = Ok (X, Y)
    ∧ get_fitted_model X Y None (default EvaluateNormal fn) false false
        None None w = (Ok f1, w1)
    ∧ get_fitted_model X Y None (default EvaluateNormal fn) false true
        None None w1 = (Ok f2, w2)
    ∧ get_fitted_model X Y None (default EvaluateNormal fn) true false
        None None w2 = (Ok f0, w')
    ∧ call f1 X Y None = Ok (ll1, Yh1)
    ∧ call f2 X Y None = Ok (ll2, Yh2)
    ∧ call f0 X Y None = Ok (ll0, p0)
    ∧ results =
        <["null_mean" := Float (tmean ll0)]>
        (<["null" := Float (tsum ll0)]>
        (<["fitted_nonlinear_lls" := Array ll2]>
        (<["fitted_nonlinear_mean" := Float (tmean ll2)]>
        (<["fitted_nonlinear" := Float (tsum ll2)]>
        (<["fitted_nonlinear_r2" := Float r22]>
        (<["fitted_nonlinear_mse" := Float mse2]>
        (<["fitted_linear_lls" := Array ll1]>
        (<["fitted_linear_mean" := Float (tmean ll1)]>
        (<["fitted_linear" := Float (tsum ll1)]>
        (<["fitted_linear_r2" := Float r21]>
        (<["fitted_linear_mse" := Float mse1]> ∅))))))))))).
Proof.
  unfold get_regression_likelihoods. intros Hrun.
  lift_inv Hrun as inputs Hin. destruct inputs as [X Y].
  cbn [for_each] in Hrun.
  bind_inv Hrun as results2 w2 Hloop.
  bind_inv Hloop as results1 w1 Hlin.
  bind_inv Hloop as results2' w2' Hnon.
  inversion Hloop; subst results2' w2'. clear Hloop.
  apply regression_fit_inv in Hlin
    as (f1 & ll1 & Yh1 & mse1 & r21 & Hf1 & Hc1 & _ & _ & ->).
  apply regression_fit_inv in Hnon
    as (f2 & ll2 & Yh2 & mse2 & r22 & Hf2 & Hc2 & _ & _ & ->).
  bind_inv Hrun as f0 w3 Hnull.
  lift_inv Hrun as out Hcall. destruct out as [ll0 p0].
  inversion Hrun; subst. clear Hrun.
  exists X, Y, f1, f2, f0, w1, w2, ll1, ll2, ll0, Yh1, Yh2, p0, mse1, mse2,
    r21, r22.
  done.
Qed.

(** The same for the categorical orchestrator. *)
Lemma location_run (loc_df : dataframe T) (predictors : list string)
  (labels : option (list string)) (fn : option evaluation_fn) (w w' : world)
  (results : gmap string (value T)) :
  get_location_likelihoods location_labels loc_df predictors labels fn w
  = (Ok results, w') →
  ∃ X counts tc f1 f2 f0 w1 w2 ll1 ll2 ll0 p1 p2 p0,
    location_inputs loc_df predictors (default location_labels labels)
    = Ok (X, counts, tc)
    ∧ get_fitted_model X counts (Some tc) (default EvaluateMultinomial fn)
        false false None None w = (Ok f1, w1)
    ∧ get_fitted_model X counts (Some tc) (default EvaluateMultinomial fn)
        false true None None w1 = (Ok f2, w2)
    ∧ get_fitted_model X counts (Some tc) (default EvaluateMultinomial fn)
        true false None None w2 = (Ok f0, w')
    ∧ call f1 X counts (Some tc) = Ok (ll1, p1)
    ∧ call f2 X counts (Some tc) = Ok (ll2, p2)
    ∧ call f0 X counts (Some tc) = Ok (ll0, p0)
    ∧ results =
        <["rho_mcf_nonlinear" := Float (rho_mcf (tsum ll2) (tsum ll0))]>
        (<["rho_mcf_linear" := Float (rho_mcf (tsum ll1) (tsum ll0))]>
        (<["null_lls" := Array ll0]>
        (<["null_mean" := Float (tmean ll0)]>
        (<["null" := Float (tsum ll0)]>
        (<["fitted_nonlinear_lls" := Array ll2]>
        (<["fitted_nonlinear_mean" := Float (tmean ll2)]>
        (<["fitted_nonlinear" := Float (tsum ll2)]>
        (<["fitted_linear_lls" := Array ll1]>
        (<["fitted_linear_mean" := Float (tmean ll1)]>
        (<["fitted_linear" := Float (tsum ll1)]> ∅)))))))))).
Proof.
  unfold get_location_likelihoods. intros Hrun.
  lift_inv Hrun as inputs Hin. destruct inputs as [[X counts] tc].
  cbn [for_each] in Hrun.
  bind_inv Hrun as results2 w2 Hloop.
  bind_inv Hloop as results1 w1 Hlin.
  bind_inv Hloop as results2' w2' Hnon.
  inversion Hloop; subst results2' w2'. clear Hloop.
  apply location_fit_inv in Hlin as (f1 & ll1 & p1 & Hf1 & Hc1 & ->).
  apply location_fit_inv in Hnon as (f2 & ll2 & p2 & Hf2 & Hc2 & ->).
  bind_inv Hrun as f0 w3 Hnull.
  lift_inv Hrun as out Hcall. destruct out as [ll0 p0].
  assert (Hget : ∀ (m : gmap string (value T)) k x,
            m !! k = Some (Float x) → getfloat m k = Ok x).
  { intros m k x Hk. unfold getfloat. by rewrite Hk. }
  lift_inv Hrun as fl Hfl.
  rewrite (Hget _ _ (tsum ll1)) in Hfl by read_key.
  lift_inv Hrun as n1 Hn1.
  rewrite (Hget _ _ (tsum ll0)) in Hn1 by read_key.
  lift_inv Hrun as fnl Hfnl.
  rewrite (Hget _ _ (tsum ll2)) in Hfnl by read_key.
  lift_inv Hrun as n2 Hn2.
  rewrite (Hget _ _ (tsum ll0)) in Hn2 by read_key.
  inversion Hfl; inversion Hn1; inversion Hfnl; inversion Hn2; subst.
  inversion Hrun; subst. clear Hrun.
  exists X, counts, tc, f1, f2, f0, w1, w2, ll1, ll2, ll0, p1, p2, p0.
  done.
Qed.

(** X10: the keys of a results mapping of the continuous orchestrator are
    the mean squared error, R², total, mean and per-observation
    log-likelihoods of the linear and of the nonlinear fit, and the total
    and mean log-likelihood of the null fit: twelve keys, with no
    [null_lls] and no pseudo-R². *)
Theorem regression_results_dom (sup_df : dataframe T)
  (predictors : list string) (labels : option (list string))
  (fn : option evaluation_fn) (w w' : world)
  (results : gmap string (value T)) :
  get_regression_likelihoods supplementary_labels sup_df predictors labels fn w
  = (Ok results, w') →
  dom results = regression_keys ∧ size results = 12.
Proof.
  intros Hrun. apply regression_run in Hrun
    as (X & Y & f1 & f2 & f0 & w1 & w2 & ll1 & ll2 & ll0 & Yh1 & Yh2 & p0
        & mse1 & mse2 & r21 & r22 & _ & _ & _ & _ & _ & _ & _ & ->).
  assert (Hdom : dom (<["null_mean" := Float (tmean ll0)]>
        (<["null" := Float (tsum ll0)]>
        (<["fitted_nonlinear_lls" := Array ll2]>
        (<["fitted_nonlinear_mean" := Float (tmean ll2)]>
        (<["fitted_nonlinear" := Float (tsum ll2)]>
        (<["fitted_nonlinear_r2" := Float r22]>
        (<["fitted_nonlinear_mse" := Float mse2]>
        (<["fitted_linear_lls" := Array ll1]>
        (<["fitted_linear_mean" := Float (tmean ll1)]>
        (<["fitted_linear" := Float (tsum ll1)]>
        (<["fitted_linear_r2" := Float r21]>
        (<["fitted_linear_mse" := Float mse1]> (∅ : gmap string (value T))))))))))))))
        = regression_keys).
  { rewrite !dom_insert_L, dom_empty_L. unfold regression_keys, fit_keys.
    cbn [String.append app list_to_set foldr]. set_solver. }
  split; [exact Hdom|].
  rewrite <- size_dom, Hdom. reflexivity.
Qed.

(** X11: the keys of a results mapping of the categorical orchestrator are
    the total, mean and per-observation log-likelihoods of the linear, the
    nonlinear and the null fit and the two pseudo-R²: eleven keys. *)
Theorem location_results_dom (loc_df : dataframe T)
  (predictors : list string) (labels : option (list string))
  (fn : option evaluation_fn) (w w' : world)
  (results : gmap string (value T)) :
  get_location_likelihoods location_labels loc_df predictors labels fn w
  = (Ok results, w') →
  dom results = location_keys ∧ size results = 11.
Proof.
  intros Hrun. apply location_run in Hrun
    as (X & counts & tc & f1 & f2 & f0 & w1 & w2 & ll1 & ll2 & ll0 & p1 & p2
        & p0 & _ & _ & _ & _ & _ & _ & _ & ->).
  assert (Hdom : dom (<["rho_mcf_nonlinear" := Float (rho_mcf (tsum ll2) (tsum ll0))]>
        (<["rho_mcf_linear" := Float (rho_mcf (tsum ll1) (tsum ll0))]>
        (<["null_lls" := Array ll0]>
        (<["null_mean" := Float (tmean ll0)]>
        (<["null" := Float (tsum ll0)]>
        (<["fitted_nonlinear_lls" := Array ll2]>
        (<["fitted_nonlinear_mean" := Float (tmean ll2)]>
        (<["fitted_nonlinear" := Float (tsum ll2)]>
        (<["fitted_linear_lls" := Array ll1]>
        (<["fitted_linear_mean" := Float (tmean ll1)]>
        (<["fitted_linear" := Float (tsum ll1)]>
           (∅ : gmap string (value T)))))))))))))
        = location_keys).
  { rewrite !dom_insert_L, dom_empty_L. unfold location_keys, fit_keys.
    cbn [String.append app list_to_set foldr]. set_solver. }
  split; [exact Hdom|].
  rewrite <- size_dom, Hdom. reflexivity.
Qed.

(** X12: an orchestrator that returns has run three fits, each with the
    default budget: thirty optimizer steps in all. *)
Theorem orchestrator_steps (df : dataframe T) (predictors : list string)
  (labels : option (list string)) (fn : option evaluation_fn) (w w' : world)
  (results : gmap string (value T)) :
  get_regression_likelihoods supplementary_labels df predictors labels fn w
  = (Ok results, w')
  ∨ get_location_likelihoods location_labels df predictors labels fn w
    = (Ok results, w') →
  ∃ calls, steps w' = steps w ++ calls ∧ length calls = 30.
Proof.
  assert (Hthree : ∀ w1 w2 c1 c2 c0,
    steps w1 = steps w ++ c1 → length c1 = 10 →
    steps w2 = steps w1 ++ c2 → length c2 = 10 →
    steps w' = steps w2 ++ c0 → length c0 = 10 →
    ∃ calls, steps w' = steps w ++ calls ∧ length calls = 30).
  { intros w1 w2 c1 c2 c0 H1 L1 H2 L2 H0' L0. exists (c1 ++ c2 ++ c0).
    split; [by rewrite H0', H2, H1, <- !app_assoc|].
    rewrite !length_app. lia. }
  intros [Hrun|Hrun].
  - apply regression_run in Hrun
      as (X & Y & f1 & f2 & f0 & w1 & w2 & ll1 & ll2 & ll0 & Yh1 & Yh2 & p0
          & mse1 & mse2 & r21 & r22 & _ & Hf1 & Hf2 & Hf0 & _).
    apply fit_default_steps in Hf1 as (c1 & H1 & L1).
    apply fit_default_steps in Hf2 as (c2 & H2 & L2).
    apply fit_default_steps in Hf0 as (c0 & H0' & L0).
    by eapply Hthree.
  - apply location_run in Hrun
      as (X & counts & tc & f1 & f2 & f0 & w1 & w2 & ll1 & ll2 & ll0 & p1
          & p2 & p0 & _ & Hf1 & Hf2 & Hf0 & _).
    apply fit_default_steps in Hf1 as (c1 & H1 & L1).
    apply fit_default_steps in Hf2 as (c2 & H2 & L2).
    apply fit_default_steps in Hf0 as (c0 & H0' & L0).
    by eapply Hthree.
Qed.

Lemma mapM_df_column_missing (df : dataframe T) (names : list string)
  (name : string) :
  name ∈ names → df_data df !! name = None →
  mapM (df_column df) names = Raise KeyError.
Proof.
  intros Hin Hmiss. induction names as [|x names IH]; [by inversion Hin|].
  cbn [mapM]. destruct (df_column df x) as [c|e] eqn:Hx.
  - rewrite result_bind_Ok. apply elem_of_cons in Hin as [->|Hin].
    + unfold df_column in Hx. rewrite Hmiss in Hx. discriminate.
    + by rewrite IH.
  - unfold df_column in Hx. destruct (df_data df !! x); [discriminate|].
    by inversion Hx.
Qed.

(** Reading the values of columns of which one is missing. *)
Lemma df_values_missing (df : dataframe T) (names : list string)
  (name : string) :
  name ∈ names → df_data df !! name = None →
  df_values df names = Raise KeyError.
Proof.
  intros Hin Hmiss. unfold df_values.
  by rewrite (mapM_df_column_missing df names name).
Qed.

(** Reading columns raises nothing but a key error. *)
Lemma df_values_raises (df : dataframe T) (names : list string) (e : exn) :
  df_values df names = Raise e → e = KeyError.
Proof.
  unfold df_values.
  assert (Hm : ∀ e', mapM (df_column df) names = Raise e' → e' = KeyError).
  { induction names as [|x names IH]; intros e' He'; [discriminate|].
    cbn [mapM] in He'. destruct (df_column df x) as [c|e0] eqn:Hx.
    - rewrite result_bind_Ok in He'.
      destruct (mapM (df_column df) names) as [k|e'']; [discriminate|].
      inversion He'; subst. by apply IH.
    - unfold df_column in Hx. destruct (df_data df !! x); [discriminate|].
      inversion Hx; subst. by inversion He'. }
  destruct (mapM (df_column df) names) as [cols|e'] eqn:Hcols;
    [discriminate|].
  intros [= <-]. by apply Hm.
Qed.

(** X13: if a predictor or label column is missing from the table, the
    continuous orchestrator raises a key error, and it has then made no
    fit: the world is as it was. *)
Theorem regression_missing_column (sup_df : dataframe T)
  (predictors : list string) (labels : option (list string))
  (fn : option evaluation_fn) (w : world) (name : string) :
  name ∈ predictors ∨ name ∈ default supplementary_labels labels →
  df_data sup_df !! name = None →
  get_regression_likelihoods supplementary_labels sup_df predictors labels fn w
  = (Raise KeyError, w).
Proof.
  intros Hin Hmiss. unfold get_regression_likelihoods.
  rewrite M_bind_eq. unfold lift at 1.
  assert (Hinputs : regression_inputs sup_df predictors
                      (default supplementary_labels labels) = Raise KeyError);
    [|by rewrite Hinputs].
  unfold regression_inputs.
  destruct (df_values sup_df predictors) as [X|e] eqn:HX.
  - rewrite result_bind_Ok. destruct Hin as [Hin|Hin].
    + by rewrite (df_values_missing _ _ _ Hin Hmiss) in HX.
    + by rewrite (df_values_missing _ _ _ Hin Hmiss).
  - by apply df_values_raises in HX as ->.
Qed.

(** X14: the categorical orchestrator raises a key error, before any fit,
    if a predictor column, a label column or the column
    [location_descriptor_count] is missing from the table. *)
Theorem location_missing_column (loc_df : dataframe T)
  (predictors : list string) (labels : option (list string))
  (fn : option evaluation_fn) (w : world) (name : string) :
  name ∈ predictors ∨ name ∈ default location_labels labels
  ∨ name = "location_descriptor_count" →
  df_data loc_df !! name = None →
  get_location_likelihoods location_labels loc_df predictors labels fn w
  = (Raise KeyError, w).
Proof.
  intros Hin Hmiss. unfold get_location_likelihoods.
  rewrite M_bind_eq. unfold lift at 1.
  assert (Hinputs : location_inputs loc_df predictors
                      (default location_labels labels) = Raise KeyError);
    [|by rewrite Hinputs].
  unfold location_inputs.
  destruct (df_values loc_df predictors) as [X|e] eqn:HX;
    [|by apply df_values_raises in HX as ->].
  rewrite result_bind_Ok.
  destruct (df_values loc_df (default location_labels labels)) as [P|e] eqn:HP;
    [|by apply df_values_raises in HP as ->].
  rewrite result_bind_Ok. unfold df_column.
  destruct Hin as [Hin|[Hin| ->]].
  - by rewrite (df_values_missing _ _ _ Hin Hmiss) in HX.
  - by rewrite (df_values_missing _ _ _ Hin Hmiss) in HP.
  - by rewrite Hmiss.
Qed.

(** X15: the categorical orchestrator always passes the trial counts to the
    fitter, so with the normal evaluator it raises an assertion error on
    every table it can read, at its first fit and before any optimizer
    step. *)
Theorem location_rejects_normal (loc_df : dataframe T)
  (predictors : list string) (labels : option (list string)) (w : world)
  (inputs : matrix T * matrix T * list T) :
  location_inputs loc_df predictors (default location_labels labels)
  = Ok inputs →
  ∃ w',
    get_location_likelihoods location_labels loc_df predictors labels
      (Some EvaluateNormal) w = (Raise AssertionError, w')
    ∧ steps w' = steps w.
Proof.
  intros Hin. unfold get_location_likelihoods.
  rewrite M_bind_eq. unfold lift at 1.
  change (default EvaluateMultinomial (Some EvaluateNormal))
    with EvaluateNormal.
  rewrite Hin. destruct inputs as [[X counts] tc].
  cbn [for_each]. rewrite M_bind_eq. rewrite M_bind_eq.
  unfold location_fit at 1. rewrite M_bind_eq.
  destruct (normal_fit_counts X counts tc false false None None w)
    as (w' & -> & Hsteps).
  by exists w'.
Qed.

(** X16: the inputs the continuous orchestrator hands to the fitter are
    well-formed matrices with one row per row of the table and one column
    per predictor, respectively per label. *)
Theorem regression_inputs_shape (sup_df : dataframe T)
  (predictors labels : list string) (X Y : matrix T) :
  regression_inputs sup_df predictors labels = Ok (X, Y) →
  mshape X = (df_len sup_df, length predictors) ∧ wf_matrix X
  ∧ mshape Y = (df_len sup_df, length labels) ∧ wf_matrix Y.
Proof.
  assert (Hstd : ∀ (names : list string) (M0 : matrix T),
    df_values sup_df names = Ok M0 →
    mshape (standardize M0) = (df_len sup_df, length names)
    ∧ wf_matrix (standardize M0)).
  { intros names M0 HM0.
    destruct (df_values_wf _ _ _ HM0) as [Hwf Hcols].
    unfold df_values in HM0.
    destruct (mapM (df_column sup_df) names) as [cols|e]; [|discriminate].
    rewrite result_bind_Ok in HM0. inversion HM0; subst M0. clear HM0.
    unfold mshape, nrows, wf_matrix, standardize in *. cbn [rows ncols] in *.
    rewrite !length_map, length_seq. split; [done|].
    apply Forall_map. eapply Forall_impl; [exact Hwf|].
    intros r Hr. cbn beta in *.
    rewrite length_zip_with. unfold std_axis0.
    rewrite length_map, length_seq. cbn [ncols]. lia. }
  intros Hin. apply regression_inputs_inv in Hin
    as (X0 & Y0 & HX & HY & _ & _ & -> & ->).
  destruct (Hstd _ _ HX) as [? ?], (Hstd _ _ HY) as [? ?]. done.
Qed.

End OrchestratorRuns.

(** ** Standardization and counts, on the real numbers *)

Section StandardizeShape.
Context {T : Type} `{Scalar T}.

Lemma standardize_wf (X : matrix T) : wf_matrix X → wf_matrix (standardize X).
Proof.
  unfold wf_matrix, standardize. cbn [rows ncols]. intros Hwf.
  apply Forall_map. eapply Forall_impl; [exact Hwf|].
  intros r Hr. cbn beta in *. rewrite length_zip_with. unfold std_axis0.
  rewrite length_map, length_seq. lia.
Qed.

End StandardizeShape.

Section RealInputs.
Local Open Scope R_scope.

Lemma zip_with_div_ones (r : list R) :
  ∀ k : nat, (length r ≤ k)%nat → zip_with Rdiv r (replicate k 1) = r.
Proof.
  induction r as [|x r IH]; intros [|k] Hk; simpl in *;
    try reflexivity; try lia.
  f_equal; [unfold Rdiv; rewrite Rinv_1; lra|]. apply IH. lia.
Qed.

Lemma map_const_seq {A} (a : A) (n : nat) :
  ∀ k, map (fun _ => a) (seq k n) = replicate n a.
Proof. induction n as [|n IH]; intros k; simpl; [done|]. by rewrite IH. Qed.

(** X17: on the real numbers, standardizing a matrix whose columns all have
    a non-zero standard deviation a second time changes nothing. *)
Theorem standardize_idempotent (X : matrix R) :
  wf_matrix X →
  (∀ j, (j < ncols X)%nat → np_std (column j X) ≠ 0) →
  standardize (standardize X) = standardize X.
Proof.
  intros Hwf Hsd.
  assert (Hones : std_axis0 (standardize X) = replicate (ncols X) 1).
  { unfold std_axis0. cbn [standardize ncols].
    rewrite <- (map_const_seq 1 (ncols X) 0). apply map_ext_in.
    intros j Hj. apply in_seq in Hj.
    apply (standardize_column X j Hwf); [lia|]. apply Hsd. lia. }
  pose proof (standardize_wf X Hwf) as Hwf'.
  unfold standardize at 1. rewrite Hones.
  change (ncols (standardize X)) with (ncols X).
  transitivity (Matrix (ncols X) (rows (standardize X))); [|reflexivity].
  f_equal. rewrite <- (map_id (rows (standardize X))) at 2.
  apply map_ext_Forall. eapply Forall_impl; [exact Hwf'|].
  intros r Hr. cbn beta in *. apply zip_with_div_ones.
  change (ncols (standardize X)) with (ncols X) in Hr. lia.
Qed.



End RealInputs.

(** ** Runs of the further properties *)

Lemma get_output_rows_witness :
  ∃ L, get_output X_sym Y_sym [b_sym] [W_sym] = Ok L
       ∧ nrows L = 2 ∧ wf_matrix L.
Proof.
  eexists. split; [reflexivity|].
  destruct (get_output_rows X_sym Y_sym _ [b_sym] [W_sym] eq_refl) as [Hr Hwf].
  split; [exact Hr|]. apply Hwf. left. discriminate.
Defined.

Lemma get_output_needs_intercepts_witness :
  ∃ L, get_output X_sym Y_sym [b_sym] [W_sym] = Ok L
       ∧ length [W_sym] ≤ length [b_sym].
Proof.
  eexists. split; [reflexivity|].
  apply (get_output_needs_intercepts X_sym Y_sym _ [b_sym] [W_sym] eq_refl).
Defined.

Lemma get_output_surplus_intercepts_witness :
  length [W_sym] ≤ length [b_sym]
  ∧ get_output X_sym Y_sym ([b_sym] ++ [[SLit 9]]) [W_sym]
    = get_output X_sym Y_sym [b_sym] [W_sym].
Proof.
  split; [simpl; lia|].
  apply (get_output_surplus_intercepts X_sym Y_sym [b_sym] [[SLit 9]] [W_sym]);
    [simpl; lia|discriminate].
Defined.

Lemma get_output_ignores_Y_witness :
  [W_sym] ≠ []
  ∧ get_output X_sym Y_sym [b_sym] [W_sym]
    = get_output X_sym Y2_sym [b_sym] [W_sym].
Proof.
  split; [discriminate|].
  apply (get_output_ignores_Y X_sym Y_sym Y2_sym [b_sym] [W_sym]).
  discriminate.
Defined.

Lemma evaluate_binomial_returns_witness :
  ∃ log_probs probs,
    evaluate_binomial X_sym Y_sym (Some counts_sym) None [b_sym] [W_sym]
    = Ok (log_probs, probs)
    ∧ numel probs = 2.
Proof.
  destruct (evaluate_binomial X_sym Y_sym (Some counts_sym) None [b_sym]
              [W_sym]) as [[log_probs probs]|e] eqn:Hev;
    [|vm_compute in Hev; discriminate].
  exists log_probs, probs. split; [reflexivity|].
  destruct (evaluate_binomial_returns X_sym Y_sym (Some counts_sym) None
              [b_sym] [W_sym] _ _ Hev) as (L & _ & _ & _ & _ & Hn).
  exact Hn.
Defined.

Lemma evaluate_normal_scale_positive_witness :
  ∃ log_probs point,
    evaluate_normal (Matrix 1 [[1%R]]) (Matrix 1 [[0%R]]) None (Some [0%R])
      [[0%R]] [Matrix 1 [[2%R]]] = Ok (log_probs, point)
    ∧ ∃ means sd d,
        normal_new means sd = Ok d ∧ Forall (fun x => (1 / 1000 < x)%R) sd.
Proof.
  destruct (evaluate_normal (Matrix 1 [[1%R]]) (Matrix 1 [[0%R]]) None
              (Some [0%R]) [[0%R]] [Matrix 1 [[2%R]]])
    as [[log_probs point]|e] eqn:Hev; [|vm_compute in Hev; discriminate].
  exists log_probs, point. split; [reflexivity|].
  destruct (evaluate_normal_scale_positive (Matrix 1 [[1%R]]) (Matrix 1 [[0%R]])
              None (Some [0%R]) [[0%R]] [Matrix 1 [[2%R]]] _ _ Hev)
    as (means & s & sd & d & lp & _ & _ & _ & _ & Hd & _ & _ & Hsd).
  by exists means, sd, d.
Defined.

Lemma fitted_output_shape_witness :
  ∃ f w' L,
    get_fitted_model X_sym Y_sym None EvaluateNormal false true (Some 2%Z)
      (Some 3) world_sym = (Ok f, w')
    ∧ get_output X_sym Y_sym (intercepts (partial_params f))
        (coeffs (partial_params f)) = Ok L
    ∧ mshape L = (2, 1).
Proof.
  destruct (get_fitted_model X_sym Y_sym None EvaluateNormal false true
              (Some 2%Z) (Some 3) world_sym) as [[f|e] w'] eqn:Hfit;
    [|vm_compute in Hfit; discriminate].
  destruct (fitted_output_shape X_sym Y_sym X_sym Y_sym None EvaluateNormal
              false true (Some 2%Z) (Some 3) world_sym w' f Hfit eq_refl eq_refl)
    as (L & HL & Hshape).
  by exists f, w', L.
Defined.

Lemma fitted_scale_iff_normal_witness :
  ∃ f w',
    get_fitted_model X_sym Y_sym (Some counts_sym) EvaluateBinomial false false
      (Some 2%Z) None world_sym = (Ok f, w')
    ∧ partial_fn f = EvaluateBinomial
    ∧ scale (partial_params f) = None.
Proof.
  destruct (get_fitted_model X_sym Y_sym (Some counts_sym) EvaluateBinomial
              false false (Some 2%Z) None world_sym) as [[f|e] w'] eqn:Hfit;
    [|vm_compute in Hfit; discriminate].
  destruct (fitted_scale_iff_normal X_sym Y_sym (Some counts_sym)
              EvaluateBinomial false false (Some 2%Z) None world_sym w' f Hfit)
    as [Hfn Hsc].
  exists f, w'. split; [reflexivity|]. split; [exact Hfn|].
  destruct (scale (partial_params f)); [by destruct Hsc|reflexivity].
Defined.

Lemma fit_rng_witness :
  ∃ r w',
    get_fitted_model X_sym Y_sym None EvaluateNormal true false None None
      world_sym = (r, w')
    ∧ rng w' = rng world_sym.
Proof.
  destruct (get_fitted_model X_sym Y_sym None EvaluateNormal true false None
              None world_sym) as [r w'] eqn:Hfit.
  exists r, w'. split; [reflexivity|].
  exact (fit_rng X_sym Y_sym None EvaluateNormal true false None None
           world_sym w' r Hfit).
Defined.

Lemma regression_results_dom_witness :
  ∃ results w',
    get_regression_likelihoods [] df_sym ["x"] (Some ["y"]) None world_sym
    = (Ok results, w')
    ∧ size results = 12.
Proof.
  assert (Hok : is_Ok (get_regression_likelihoods [] df_sym ["x"] (Some ["y"])
                         None world_sym).1 = true) by (vm_compute; reflexivity).
  destruct (get_regression_likelihoods [] df_sym ["x"] (Some ["y"]) None
              world_sym) as [[results|e] w'] eqn:Hrun; [|discriminate Hok].
  exists results, w'. split; [reflexivity|].
  apply (regression_results_dom [] df_sym ["x"] (Some ["y"]) None world_sym w'
           results Hrun).
Defined.

Lemma location_results_dom_witness :
  ∃ results w',
    get_location_likelihoods ["a"; "b"] loc_df_sym ["x"] None None world_sym
    = (Ok results, w')
    ∧ size results = 11.
Proof.
  assert (Hok : is_Ok (get_location_likelihoods ["a"; "b"] loc_df_sym ["x"]
                         None None world_sym).1 = true)
    by (vm_compute; reflexivity).
  destruct (get_location_likelihoods ["a"; "b"] loc_df_sym ["x"] None None
              world_sym) as [[results|e] w'] eqn:Hrun; [|discriminate Hok].
  exists results, w'. split; [reflexivity|].
  apply (location_results_dom ["a"; "b"] loc_df_sym ["x"] None None world_sym
           w' results Hrun).
Defined.

Lemma orchestrator_steps_witness :
  ∃ results w',
    get_location_likelihoods ["a"; "b"] loc_df_sym ["x"] None None world_sym
    = (Ok results, w')
    ∧ length (steps w') = 30.
Proof.
  assert (Hok : is_Ok (get_location_likelihoods ["a"; "b"] loc_df_sym ["x"]
                         None None world_sym).1 = true)
    by (vm_compute; reflexivity).
  destruct (get_location_likelihoods ["a"; "b"] loc_df_sym ["x"] None None
              world_sym) as [[results|e] w'] eqn:Hrun; [|discriminate Hok].
  exists results, w'. split; [reflexivity|].
  destruct (orchestrator_steps ["a"; "b"] [] loc_df_sym ["x"] None None
              world_sym w' results (or_intror Hrun)) as (calls & -> & Hlen).
  exact Hlen.
Defined.

Lemma regression_missing_column_witness :
  ("z" ∈ ["z"] ∨ "z" ∈ default [] (Some ["y"]))
  ∧ df_data df_sym !! "z" = None
  ∧ get_regression_likelihoods [] df_sym ["z"] (Some ["y"]) None world_sym
    = (Raise KeyError, world_sym).
Proof.
  assert (Hin : "z" ∈ ["z"] ∨ "z" ∈ default [] (Some ["y"]))
    by (left; apply list_elem_of_here).
  split; [exact Hin|]. split; [reflexivity|].
  exact (regression_missing_column [] df_sym ["z"] (Some ["y"]) None world_sym
           "z" Hin eq_refl).
Defined.

Lemma location_missing_column_witness :
  df_data df_sym !! "location_descriptor_count" = None
  ∧ get_location_likelihoods [] df_sym ["x"] (Some ["y"]) None world_sym
    = (Raise KeyError, world_sym).
Proof.
  split; [reflexivity|].
  apply (location_missing_column [] df_sym ["x"] (Some ["y"]) None world_sym
           "location_descriptor_count"); [|reflexivity].
  right. right. reflexivity.
Defined.

Lemma location_rejects_normal_witness :
  ∃ inputs w',
    location_inputs loc_df_sym ["x"] (default ["a"; "b"] None) = Ok inputs
    ∧ get_location_likelihoods ["a"; "b"] loc_df_sym ["x"] None
        (Some EvaluateNormal) world_sym = (Raise AssertionError, w').
Proof.
  destruct (location_inputs loc_df_sym ["x"] (default ["a"; "b"] None))
    as [inputs|e] eqn:Hin; [|vm_compute in Hin; discriminate].
  destruct (location_rejects_normal ["a"; "b"] loc_df_sym ["x"] None world_sym
              inputs Hin) as (w' & Hrun & _).
  by exists inputs, w'.
Defined.

Lemma regression_inputs_shape_witness :
  ∃ X Y,
    regression_inputs df_sym ["x"] ["y"] = Ok (X, Y)
    ∧ mshape X = (2, 1) ∧ mshape Y = (2, 1).
Proof.
  destruct (regression_inputs df_sym ["x"] ["y"]) as [[X Y]|e] eqn:Hin;
    [|vm_compute in Hin; discriminate].
  destruct (regression_inputs_shape df_sym ["x"] ["y"] X Y Hin)
    as (HX & _ & HY & _).
  by exists X, Y.
Defined.

Lemma standardize_idempotent_witness :
  wf_matrix column_0_4
  ∧ standardize (standardize column_0_4) = standardize column_0_4.
Proof.
  split; [exact wf_column_0_4|].
  apply (standardize_idempotent column_0_4 wf_column_0_4).
  intros j Hj. assert (j = 0) as -> by (simpl in Hj; lia).
  rewrite np_std_column_0_4. lra.
Defined.

